(** * tools/create_audio_messages.py: the batch text-to-speech converter

    A shallow embedding of the script that turns a track list
    ([name|spoken text] per line) into one mp3 file per entry, and the
    properties of its parser, its synthesis backends and its conversion
    loop.

    Python values are embedded as follows.
    - A [str] is the sequence of its Unicode code points.
    - [bytes] is a list of [Byte.byte].
    - A dict is a [gmap].
    - An exception is a value of [exn]: its class and its constructor
      arguments.  A computation that may raise returns a [result].
    - Code that touches the outside world (standard output, the file
      system, the HTTP session) is a function on [state]: the world, and
      the trace of what the run has printed, called and written so far. *)

From Stdlib Require Import Ascii String QArith.
From stdpp Require Import base decidable option list gmap strings pretty.

Local Open Scope Z_scope.
Local Open Scope nat_scope.
Local Open Scope list_scope.

(** ** Strings *)

Abbreviation char := N (only parsing).
Abbreviation str := (list N) (only parsing).
Abbreviation bytes := (list Byte.byte) (only parsing).

(** A literal of the source, character by character. *)
Definition lit (s : string) : str :=
  (λ a : ascii, N_of_ascii a) <$> list_ascii_of_string s.

(** [str(n)] and ["{}".format(n)] for an int. *)
Definition str_of_int (n : Z) : str := lit (pretty n).

(** The methods of [str] that the script calls. *)
Module Str.

(** [ch.isspace()]: the characters that [str.strip()] removes. *)
Definition isspace (c : char) : bool :=
  ((9 <=? c) && (c <=? 13) || (28 <=? c) && (c <=? 32)
   || (c =? 133) || (c =? 160) || (c =? 5760)
   || (8192 <=? c) && (c <=? 8202)
   || (c =? 8232) || (c =? 8233) || (c =? 8239) || (c =? 8287)
   || (c =? 12288))%N.

Fixpoint lstrip (s : str) : str :=
  match s with
  | c :: s' => if isspace c then lstrip s' else s
  | [] => []
  end.

Definition rstrip (s : str) : str := reverse (lstrip (reverse s)).

(** [s.strip()] *)
Definition strip (s : str) : str := rstrip (lstrip s).

(** [s.startswith(p)] *)
Fixpoint startswith (s p : str) {struct p} : bool :=
  match p, s with
  | [], _ => true
  | _ :: _, [] => false
  | a :: p', c :: s' => (c =? a)%N && startswith s' p'
  end.

(** [s.split(sep)] for a separator of one character: one more field
    than there are separators. *)
Fixpoint split (sep : char) (s : str) : list str :=
  match s with
  | [] => [[]]
  | c :: s' =>
      if (c =? sep)%N then [] :: split sep s'
      else match split sep s' with
           | f :: fs => (c :: f) :: fs
           | [] => [[c]]
           end
  end.

(** [s.count(sep)] *)
Definition count (sep : char) (s : str) : nat :=
  length (filter (λ c, c = sep) s).

(** [p in s] for two strings. *)
Fixpoint contains (s p : str) : bool :=
  startswith s p ||
  match s with
  | [] => false
  | _ :: s' => contains s' p
  end.

End Str.

Definition hash : char := 35%N.
Definition bar : char := 124%N.
Definition newline : char := 10%N.
Definition slash : char := 47%N.

(** [os.path.join(a, b)] of posixpath, for two components. *)
Definition join (a b : str) : str :=
  if Str.startswith b [slash] then b
  else match last a with
       | None => b
       | Some c => if (c =? slash)%N then a ++ b else a ++ slash :: b
       end.

(** The lines that iterating over a text file yields: each one ends
    with its newline, except possibly the last.  (The text is the
    decoded one, line endings already translated to a newline.) *)
Fixpoint iter_lines_aux (cur : str) (text : str) : list str :=
  match text with
  | [] => match cur with [] => [] | _ => [reverse cur] end
  | c :: text' =>
      if (c =? newline)%N then reverse (c :: cur) :: iter_lines_aux [] text'
      else iter_lines_aux (c :: cur) text'
  end.

Definition iter_lines (text : str) : list str := iter_lines_aux [] text.

(** ** Values and exceptions *)

(** The Python values the script handles as data: what a JSON body
    decodes to, what a request is built from, what an exception
    carries. *)
#[local] Set Warnings "-register-all".
Inductive pyval :=
| PNone
| PBool (b : bool)
| PInt (n : Z)
| PFloat (q : Q)
| PStr (s : str)
| PList (l : list pyval)
| PDict (d : gmap str pyval).

(** The exception classes the script meets, with their place in the
    hierarchy of the builtins; [Derived] is a class that a library
    defines below one of them. *)
Inductive exc_class :=
| BaseException
| SystemExit
| KeyboardInterrupt
| GeneratorExit
| Exception
| TypeError
| ValueError
| LookupError
| KeyError
| IndexError
| OSError
| RuntimeError
| NotImplementedError
| Derived (name : str) (base : exc_class).

(** [IOError] has been an alias of [OSError] since Python 3.3. *)
Definition IOError : exc_class := OSError.

#[global] Instance exc_class_eq_dec : EqDecision exc_class.
Proof. solve_decision. Defined.

(** The class and its ancestors, most specific first. *)
Fixpoint mro (c : exc_class) : list exc_class :=
  c ::
  match c with
  | BaseException => []
  | SystemExit | KeyboardInterrupt | GeneratorExit | Exception =>
      [BaseException]
  | TypeError | ValueError | LookupError | OSError | RuntimeError =>
      [Exception; BaseException]
  | KeyError | IndexError => [LookupError; Exception; BaseException]
  | NotImplementedError => [RuntimeError; Exception; BaseException]
  | Derived _ base => mro base
  end.

Definition issubclass (c d : exc_class) : bool := bool_decide (d ∈ mro c).

Record exn := mk_exn { exc_type : exc_class; exc_args : list pyval }.

(** [isinstance(e, c)]: what an [except c] clause tests. *)
Definition isinstance (e : exn) (c : exc_class) : bool :=
  issubclass (exc_type e) c.

Inductive result (A : Type) :=
| Ok (a : A)
| Raise (e : exn).
Arguments Ok {A} a.
Arguments Raise {A} e.

(** The names of the builtins module that the script calls. *)
Inductive builtin :=
| NotImplemented
| Class (c : exc_class).

(** A call [f(args)].  [NotImplemented] is a constant, not a class: calling
    it is a [TypeError]. *)
Definition call (f : builtin) (args : list pyval) : result exn :=
  match f with
  | NotImplemented =>
      Raise (mk_exn TypeError
               [PStr (lit "'NotImplementedType' object is not callable")])
  | Class c => Ok (mk_exn c args)
  end.

(** [key in obj] *)
Definition contains (obj : pyval) (key : str) : result bool :=
  match obj with
  | PDict d => Ok (bool_decide (is_Some (d !! key)))
  | PList l =>
      Ok (existsb (λ x, match x with
                        | PStr s => bool_decide (s = key)
                        | _ => false
                        end) l)
  | PStr s => Ok (Str.contains s key)
  | PNone | PBool _ | PInt _ | PFloat _ =>
      Raise (mk_exn TypeError [PStr (lit "argument is not iterable")])
  end.

(** [obj[key]] for a [str] key. *)
Definition getitem (obj : pyval) (key : str) : result pyval :=
  match obj with
  | PDict d =>
      match d !! key with
      | Some v => Ok v
      | None => Raise (mk_exn KeyError [PStr key])
      end
  | PList _ | PStr _ =>
      Raise (mk_exn TypeError [PStr (lit "indices must be integers")])
  | PNone | PBool _ | PInt _ | PFloat _ =>
      Raise (mk_exn TypeError [PStr (lit "object is not subscriptable")])
  end.

(** [a, b = fields]: the error of an unpacking that does not find two
    values. *)
Definition unpack_error (n : nat) : exn :=
  mk_exn ValueError
    [PStr (if n <? 2
           then lit "not enough values to unpack (expected 2, got "
                ++ str_of_int (Z.of_nat n) ++ lit ")"
           else lit "too many values to unpack (expected 2)")].

(** ** The outside world *)

(** [requests]: what [Session.post] is given and what it returns. *)
Record Request := {
  req_url : str;
  req_headers : gmap str str;
  req_params : gmap str str;
  req_json : pyval;
}.

Record PreparedRequest := {
  prep_headers : gmap str str;
  prep_url : str;
  prep_body : bytes;
}.

Record Response := {
  status_code : Z;
  json : result pyval;          (* r.json() *)
  request : PreparedRequest;    (* r.request *)
}.

(** What the script prints, by the [print] statement it comes from and
    the values formatted into it. *)
Inductive message :=
| InputNotAccessible (input : str)
| OutdirMissing (outdir : str)
| CreatingTexts
| TooManyErrors
| Progress (i total : nat) (name text : str)
| ConversionError (text : str) (e : exn)
| FailedToCreate (target : str)
| RequestHeaders (h : gmap str str)
| RequestUrl (u : str)
| RequestBody (b : bytes)
| NoSubcommand.

(** What a run does that can be seen from outside, in the order it
    does it: a line on standard output, a call of [text_to_speech], an
    [open(target, "wb")] with the bytes then written. *)
Inductive event :=
| Print (m : message)
| Synthesize (text lang : str)
| WriteFile (target : str) (data : bytes).

(** The collaborators of the script: [os.path], [open], the standard
    output, the session of [requests] and [base64], over a world [W]
    of their own. *)
Record Env (W : Type) := {
  (** [print(...)] of a line with formatted values in it: the
      exception that the standard output raises when it cannot encode
      the text ([UnicodeEncodeError]), [None] when the line goes
      out. *)
  stdout_error : message → W → option exn;
  isfile : str → W → bool;
  isdir : str → W → bool;
  (** [open(path)] and the iteration over its lines: the lines read,
      and the exception that ended the reading if one did. *)
  read_lines : str → W → list str * option exn;
  (** [with open(path, "wb") as f: f.write(data)] *)
  write_file : str → bytes → W → result unit * W;
  (** [self._session.post(url, headers=, params=, json=)] *)
  post : Request → W → result Response * W;
  (** [base64.b64decode] *)
  b64decode : pyval → result bytes;
}.
Arguments stdout_error {W} _ _ _.
Arguments isfile {W} _ _ _.
Arguments isdir {W} _ _ _.
Arguments read_lines {W} _ _ _.
Arguments write_file {W} _ _ _ _.
Arguments post {W} _ _ _.
Arguments b64decode {W} _ _.

Record state (W : Type) := mk_state { world : W; trace : list event }.
Arguments mk_state {W} _ _.
Arguments world {W} _.
Arguments trace {W} _.

(** A statement: from a state to a value or an exception, and the
    state it leaves. *)
Definition io (W A : Type) : Type := state W → result A * state W.

Definition ret {W A} (a : A) : io W A := λ st, (Ok a, st).

Definition bind {W A B} (m : io W A) (k : A → io W B) : io W B :=
  λ st, match m st with
        | (Ok a, st') => k a st'
        | (Raise e, st') => (Raise e, st')
        end.

Declare Scope io_scope.
Delimit Scope io_scope with io.
Notation "x <- m ;; k" := (bind m (λ x, k))
  (at level 100, m at next level, right associativity) : io_scope.
Notation "'_' <- m ;; k" := (bind m (λ _, k))
  (at level 100, m at next level, right associativity) : io_scope.

(** [raise e], where evaluating [e] may itself raise. *)
Definition raise {W A} (e : result exn) : io W A :=
  λ st, match e with
        | Ok x => (Raise x, st)
        | Raise x => (Raise x, st)
        end.

Definition lift {W A} (r : result A) : io W A := λ st, (r, st).

Definition log {W} (ev : event) : io W unit :=
  λ st, (Ok tt, mk_state (world st) (trace st ++ [ev])).

(** The messages that are a literal of the source, all of it ASCII. *)
Definition literal (m : message) : bool :=
  match m with
  | CreatingTexts | TooManyErrors | NoSubcommand => true
  | _ => false
  end.

(** [print(...)], the standard output being open.  A literal of the
    source, all of it ASCII, goes out.  A line with a name, a text, a
    path or an exception formatted into it goes out if the standard
    output can encode it; if not, [print] raises (in Python a
    [UnicodeEncodeError]) and nothing of the line is recorded. *)
Definition print {W} (env : Env W) (m : message) : io W unit :=
  λ st, if literal m then log (Print m) st
        else match stdout_error env m (world st) with
             | Some x => (Raise x, st)
             | None => log (Print m) st
             end.

(** [sys.exit(code)] *)
Definition sys_exit {W A} (code : Z) : io W A :=
  raise (call (Class SystemExit) [PInt code]).

(** [try: body  except cls as e: handler e] *)
Definition try_except {W A} (body : io W A) (cls : exc_class)
    (handler : exn → io W A) : io W A :=
  λ st, match body st with
        | (Ok a, st') => (Ok a, st')
        | (Raise e, st') =>
            if isinstance e cls then handler e st' else (Raise e, st')
        end.

(** An operation of the world, run on the world of the state. *)
Definition on_world {W A} (op : W → result A * W) : io W A :=
  λ st, let '(r, w) := op (world st) in (r, mk_state w (trace st)).

(** A question to the world that leaves it as it is. *)
Definition ask {W A} (f : W → A) : io W A := λ st, (Ok (f (world st)), st).

Local Open Scope io_scope.

(** ** The script *)

(** What [ArgumentParser.parse_args] hands to a mode. *)
Record Namespace := {
  input : str;
  outdir : str;
  lang : str;
  google_key : str;
}.

(** An object of class [Mode] or of a subclass: the attributes that
    [Mode.parse_args] sets, and the [text_to_speech] of its class. *)
Class Mode (W M : Type) := {
  _input : M → str;
  _outdir : M → str;
  _language : M → str;
  text_to_speech : M → str → str → io W bytes;
}.

Definition entry : Type := str * str.

Module Mode.

Record t := { input_ : str; outdir_ : str; language_ : str }.

Definition parse_args (args : Namespace) : t :=
  {| input_ := input args; outdir_ := outdir args; language_ := lang args |}.

(** The body of the loop over the lines of the input file:
    [None] for a line that is passed over, the entry otherwise. *)
Definition parse_line (line : str) : result (option entry) :=
  let line := Str.strip line in
  if length line =? 0 then Ok None
  else if Str.startswith line (lit "#") then Ok None
  else match Str.split bar line with
       | [name; text] => Ok (Some (name ++ lit ".mp3", text))
       | fields => Raise (unpack_error (length fields))
       end.

(** The loop over the lines, [elements] being the list built so far. *)
Fixpoint parse_lines (lines : list str) (elements : list entry)
  : result (list entry) :=
  match lines with
  | [] => Ok elements
  | line :: rest =>
      match parse_line line with
      | Ok None => parse_lines rest elements
      | Ok (Some e) => parse_lines rest (elements ++ [e])
      | Raise x => Raise x
      end
  end.

Section Run.
Context {W M : Type} {cls : Mode W M} (env : Env W) (self : M).

(** [with open(self._input) as f: for line in f: ...] *)
Definition read_elements : io W (list entry) :=
  f <- ask (read_lines env (_input self)) ;;
  elements <- lift (parse_lines (fst f) []) ;;
  match snd f with
  | Some x => raise (Ok x)
  | None => ret elements
  end.

(** The body of [for i, e in enumerate(elements)], from the value
    of [errors] before it to the value after it. *)
Definition body (total i : nat) (e : entry) (errors : nat) : io W nat :=
  if 3 <=? errors then
    _ <- print env TooManyErrors ;;
    sys_exit 1
  else
    let '(name, text) := e in
    mp3 <- try_except
             (_ <- print env (Progress i total name text) ;;
              _ <- log (Synthesize text (_language self)) ;;
              mp3 <- text_to_speech self text (_language self) ;;
              ret (Some mp3))
             Exception
             (λ x, _ <- print env (ConversionError text x) ;;
                   ret None) ;;
    match mp3 with
    | None => ret (errors + 1)
    | Some mp3 =>
        let target := join (_outdir self) name in
        try_except
          (_ <- log (WriteFile target mp3) ;;
           _ <- on_world (write_file env target mp3) ;;
           ret errors)
          IOError
          (λ _, _ <- print env (FailedToCreate target) ;;
                ret (errors + 1))
    end.

Fixpoint loop (total i : nat) (elements : list entry) (errors : nat)
  : io W nat :=
  match elements with
  | [] => ret errors
  | e :: rest =>
      errors' <- body total i e errors ;;
      loop total (S i) rest errors'
  end.

(** From [print("Creating texts:")] to the end of [run]. *)
Definition convert (elements : list entry) : io W nat :=
  _ <- print env CreatingTexts ;;
  loop (length elements) 0 elements 0.

Definition run : io W unit :=
  found <- ask (isfile env (_input self)) ;;
  if negb found then
    _ <- print env (InputNotAccessible (_input self)) ;;
    sys_exit 1
  else
    found <- ask (isdir env (_outdir self)) ;;
    if negb found then
      _ <- print env (OutdirMissing (_outdir self)) ;;
      sys_exit 1
    else
      elements <- read_elements ;;
      _ <- convert elements ;;
      ret tt.
End Run.

(** [raise NotImplemented()] *)
Definition text_to_speech {W} (self : t) (text lang : str) : io W bytes :=
  raise (call NotImplemented []).

#[global] Instance mode W : Mode W t :=
  Build_Mode W t input_ outdir_ language_ text_to_speech.

End Mode.

Module GoogleMode.

Record t := { base : Mode.t; _key : str }.

Definition target_url : str :=
  lit "https://texttospeech.googleapis.com/v1beta1/text:synthesize".

Definition voice_by_lang : gmap str pyval :=
  list_to_map
    [ (lit "de", PDict (list_to_map
                          [ (lit "languageCode", PStr (lit "de-DE"));
                            (lit "name", PStr (lit "de-DE-Wavenet-C")) ]));
      (lit "en", PDict (list_to_map
                          [ (lit "languageCode", PStr (lit "en-US"));
                            (lit "name", PStr (lit "en-US-Wavenet-D")) ])) ].

(** [requests.codes.ok] *)
Definition codes_ok : Z := 200.

Definition parse_args (args : Namespace) : t :=
  {| base := Mode.parse_args args; _key := google_key args |}.

(** The arguments of the [post] in [text_to_speech]: [target_url],
    [headers], [params] and [data], where [voice] is the value of
    [GoogleMode.voice_by_lang[lang]]. *)
Definition post_args (self : t) (text : str) (voice : pyval) : Request :=
  let target_url := target_url in
  let params : gmap str str := {[ lit "key" := _key self ]} in
  let data :=
    PDict (list_to_map
      [ (lit "audioConfig",
          PDict (list_to_map
            [ (lit "audioEncoding", PStr (lit "MP3"));
              (lit "speakingRate", PFloat 1);
              (lit "pitch", PFloat 2);
              (lit "sampleRateHertz", PInt 44100);
              (lit "effectsProfileId",
                PList [PStr (lit "small-bluetooth-speaker-class-device")])
            ]));
        (lit "voice", voice);
        (lit "input", PDict {[ lit "text" := PStr text ]}) ]) in
  let headers : gmap str str :=
    list_to_map [ (lit "Content-Type", lit "application/json");
                  (lit "charset", lit "utf-8") ] in
  {| req_url := target_url;
     req_headers := headers;
     req_params := params;
     req_json := data |}.

Section Methods.
Context {W : Type} (env : Env W).

Definition text_to_speech (self : t) (text lang : str) : io W bytes :=
  voice <- lift (getitem (PDict voice_by_lang) lang) ;;
  r <- on_world (post env (post_args self text voice)) ;;
  if negb (status_code r =? codes_ok)%Z then
    _ <- print env (RequestHeaders (prep_headers (request r))) ;;
    _ <- print env (RequestUrl (prep_url (request r))) ;;
    _ <- print env (RequestBody (prep_body (request r))) ;;
    raise (call (Class Exception)
             [PStr (lit "Request failed with status: "
                    ++ str_of_int (status_code r))])
  else
    js <- lift (json r) ;;
    found <- lift (contains js (lit "audioContent")) ;;
    if negb found then
      raise (call (Class Exception)
               [PStr (lit "audioContent not in the response json")])
    else
      content <- lift (getitem js (lit "audioContent")) ;;
      lift (b64decode env content).

#[global] Instance mode : Mode W t :=
  Build_Mode W t (Mode.input_ ∘ base) (Mode.outdir_ ∘ base)
    (Mode.language_ ∘ base) text_to_speech.

Definition create_and_run (args : Namespace) : io W unit :=
  let mode := parse_args args in
  Mode.run env mode.
End Methods.

End GoogleMode.

Module AWSMode.

Record t := { base : Mode.t }.

Definition voice_by_lang : gmap str pyval :=
  list_to_map [ (lit "de", PStr (lit "Vicki"));
                (lit "en", PStr (lit "Joanna")) ].

Definition parse_args (args : Namespace) : t :=
  {| base := Mode.parse_args args |}.

(** [raise NotImplemented()] *)
Definition text_to_speech {W} (self : t) (text lang : str) : io W bytes :=
  raise (call NotImplemented []).

#[global] Instance mode W : Mode W t :=
  Build_Mode W t (Mode.input_ ∘ base) (Mode.outdir_ ∘ base)
    (Mode.language_ ∘ base) text_to_speech.

Definition create_and_run {W} (env : Env W) (args : Namespace) : io W unit :=
  let mode := parse_args args in
  Mode.run env mode.

End AWSMode.

Module SayMode.

Record t := { base : Mode.t }.

Definition voice_by_lang : gmap str pyval :=
  list_to_map [ (lit "de", PStr (lit "Anna"));
                (lit "en", PStr (lit "Samantha")) ].

Definition parse_args (args : Namespace) : t :=
  {| base := Mode.parse_args args |}.

(** [raise NotImplemented()] *)
Definition text_to_speech {W} (self : t) (text lang : str) : io W bytes :=
  raise (call NotImplemented []).

#[global] Instance mode W : Mode W t :=
  Build_Mode W t (Mode.input_ ∘ base) (Mode.outdir_ ∘ base)
    (Mode.language_ ∘ base) text_to_speech.

Definition create_and_run {W} (env : Env W) (args : Namespace) : io W unit :=
  let mode := parse_args args in
  Mode.run env mode.

End SayMode.

(** The block under [if __name__ == "__main__"], after the parsing of
    the command line: [None] when no subcommand was given, so that the
    namespace has no [create_and_run]; the only subcommand registered
    is [google]. *)
Definition main {W} (env : Env W) (args : option Namespace) : io W unit :=
  match args with
  | None =>
      _ <- print env NoSubcommand ;;
      sys_exit 1
  | Some args => GoogleMode.create_and_run env args
  end.

(** The exit status of the interpreter for the way the script ends. *)
Definition exit_status {A} (r : result A) : Z :=
  match r with
  | Ok _ => 0
  | Raise e =>
      if isinstance e SystemExit then
        match exc_args e with
        | [] | [PNone] => 0
        | [PInt code] => code
        | _ => 1
        end
      else 1
  end.

(** ** Reading a trace *)

(** The calls of [text_to_speech] a trace records, as (text, lang). *)
Definition synth_calls (tr : list event) : list (str * str) :=
  omap (λ ev, match ev with
              | Synthesize text lang => Some (text, lang)
              | _ => None
              end) tr.

(** The files a trace records as opened for writing, with the bytes. *)
Definition writes (tr : list event) : list (str * bytes) :=
  omap (λ ev, match ev with
              | WriteFile target data => Some (target, data)
              | _ => None
              end) tr.

(** The state once the events [evs] have been recorded. *)
Definition emit {W} (st : state W) (evs : list event) : state W :=
  mk_state (world st) (trace st ++ evs).

(** What [sys.exit(1)] raises. *)
Definition exit1 : exn := mk_exn SystemExit [PInt 1].

(** The collaborators fail the way the loop expects them to: the
    backend with an [Exception], the writing of a file with an
    [IOError]. *)
Definition backend_raises_exceptions {W M} `{!Mode W M} (self : M) : Prop :=
  ∀ text lang st x st',
    text_to_speech self text lang st = (Raise x, st') →
    isinstance x Exception = true.

Definition writes_raise_ioerrors {W} (env : Env W) : Prop :=
  ∀ target data w x w',
    write_file env target data w = (Raise x, w') →
    isinstance x IOError = true.


(** A line that the parser keeps: not blank and not a comment once
    stripped. *)
Definition is_entry_line (line : str) : bool :=
  negb (length (Str.strip line) =? 0)
  && negb (Str.startswith (Str.strip line) (lit "#")).

(** A backend that, called with the language of the run, leaves on the
    trace only what it prints. *)
Definition backend_prints_only {W M} {cls : Mode W M} (self : M) : Prop :=
  ∀ text st r st',
    text_to_speech self text (_language self) st = (r, st') →
    ∃ msgs, trace st' = trace st ++ (Print <$> msgs).


(** A backend that fails on every text, with the exception [x text],
    before it has done anything. *)
Definition backend_fails_in_place {W M} {cls : Mode W M} (self : M)
    (x : str → exn) : Prop :=
  ∀ text st,
    text_to_speech self text (_language self) st = (Raise (x text), st)
    ∧ isinstance (x text) Exception = true.

(** A standard output that takes every line. *)
Definition prints_succeed {W} (env : Env W) : Prop :=
  ∀ m w, stdout_error env m w = None.


(** [requests] and [base64] fail with instances of [Exception] only:
    the [post], the [json()] of a response it gave, [b64decode]. *)
Definition library_raises_exceptions {W} (env : Env W) : Prop :=
  (∀ req w x w', post env req w = (Raise x, w') →
                 isinstance x Exception = true)
  ∧ (∀ req w r w' x, post env req w = (Ok r, w') → json r = Raise x →
                     isinstance x Exception = true)
  ∧ (∀ v x, b64decode env v = Raise x → isinstance x Exception = true).

(** ** A world to run the script in

    An in-memory stand-in for the collaborators: text files and
    directories, the binary files written, paths that cannot be opened
    for writing, and a server that answers the requests from a list of
    prepared replies. *)
Module Sim.

Record world := {
  texts : gmap str str;
  dirs : gset str;
  files : gmap str bytes;
  locked : gset str;
  replies : list (result Response);
}.

Definition FileNotFoundError : exc_class :=
  Derived (lit "FileNotFoundError") OSError.
Definition PermissionError : exc_class :=
  Derived (lit "PermissionError") OSError.
Definition ConnectionError : exc_class :=
  Derived (lit "ConnectionError") (Derived (lit "RequestException") OSError).
Definition binascii_Error : exc_class :=
  Derived (lit "binascii.Error") ValueError.

Definition read_lines (path : str) (w : world) : list str * option exn :=
  match texts w !! path with
  | Some text => (iter_lines text, None)
  | None => ([], Some (mk_exn FileNotFoundError [PStr path]))
  end.

Definition write_file (path : str) (data : bytes) (w : world)
  : result unit * world :=
  if bool_decide (path ∈ locked w)
  then (Raise (mk_exn PermissionError [PStr path]), w)
  else (Ok tt, {| texts := texts w; dirs := dirs w;
                  files := <[path := data]> (files w);
                  locked := locked w; replies := replies w |}).

Definition post (r : Request) (w : world) : result Response * world :=
  match replies w with
  | [] => (Raise (mk_exn ConnectionError []), w)
  | reply :: rest =>
      (reply, {| texts := texts w; dirs := dirs w; files := files w;
                 locked := locked w; replies := rest |})
  end.

(** The value of a character of the base64 alphabet. *)
Definition digit (c : char) : option N :=
  if ((65 <=? c) && (c <=? 90))%N then Some (c - 65)%N
  else if ((97 <=? c) && (c <=? 122))%N then Some (c - 71)%N
  else if ((48 <=? c) && (c <=? 57))%N then Some (c + 4)%N
  else if (c =? 43)%N then Some 62%N
  else if (c =? 47)%N then Some 63%N
  else None.

Definition byte (n : N) : Byte.byte :=
  default Byte.x00 (Byte.of_N (n mod 256)%N).

Definition pad : char := 61%N.

Fixpoint quads (s : str) : option bytes :=
  match s with
  | [] => Some []
  | a :: b :: c :: d :: rest =>
      x ← digit a; y ← digit b;
      if (c =? pad)%N && (d =? pad)%N && bool_decide (rest = [])
      then Some [byte (x * 4 + y / 16)]
      else
        z ← digit c;
        if (d =? pad)%N && bool_decide (rest = [])
        then Some [byte (x * 4 + y / 16); byte (y * 16 + z / 4)]
        else
          u ← digit d; tl ← quads rest;
          Some (byte (x * 4 + y / 16) :: byte (y * 16 + z / 4)
                :: byte (z * 64 + u) :: tl)
  | _ => None
  end.

(** A strict [b64decode]: it takes canonical base64 only, where the
    one of the library passes over characters outside the alphabet. *)
Definition b64decode (v : pyval) : result bytes :=
  match v with
  | PStr s =>
      match quads s with
      | Some b => Ok b
      | None => Raise (mk_exn binascii_Error [PStr (lit "Incorrect padding")])
      end
  | _ => Raise (mk_exn TypeError [PStr (lit "expected bytes-like object or str")])
  end.

(** A standard output in UTF-8: every line goes out. *)
Definition stdout_utf8 (m : message) (w : world) : option exn := None.

Definition isfile (path : str) (w : world) : bool :=
  bool_decide (is_Some (texts w !! path)).

Definition isdir (path : str) (w : world) : bool :=
  bool_decide (path ∈ dirs w).

Definition env : Env world :=
  Build_Env world stdout_utf8 isfile isdir read_lines write_file post b64decode.

(** A card with a track list of [n] lines in [audio_tracks.de.txt],
    an empty directory [sd-card], and the replies given. *)
Definition card (tracks : str) (replies : list (result Response)) : world := {|
  texts := {[ lit "audio_tracks.de.txt" := tracks ]};
  dirs := {[ lit "sd-card" ]};
  files := ∅;
  locked := ∅;
  replies := replies;
|}.

(** The defaults of the command line. *)
Definition args : Namespace := {|
  input := lit "audio_tracks.de.txt";
  outdir := lit "sd-card";
  lang := lit "de";
  google_key := lit "KEY";
|}.

Definition start (w : world) : state world := mk_state w [].

Definition aws : AWSMode.t := AWSMode.parse_args args.
Definition say : SayMode.t := SayMode.parse_args args.
Definition google : GoogleMode.t := GoogleMode.parse_args args.

#[global] Instance google_mode : Mode world GoogleMode.t :=
  GoogleMode.mode env.

Definition three_tracks : str :=
  lit "a|x" ++ [newline] ++ lit "b|y" ++ [newline] ++ lit "c|z" ++ [newline].
Definition four_tracks : str := three_tracks ++ lit "d|u" ++ [newline].

Definition three : list entry :=
  [(lit "a.mp3", lit "x"); (lit "b.mp3", lit "y"); (lit "c.mp3", lit "z")].
Definition four : list entry := three ++ [(lit "d.mp3", lit "u")].

(** A track list whose second line has no delimiter. *)
Definition bad_tracks : str :=
  lit "a|x" ++ [newline] ++ lit "no delimiter" ++ [newline]
  ++ lit "c|z" ++ [newline].

(** A reply of the server, with the status and the body given. *)
Definition reply (status : Z) (body : result pyval) : Response := {|
  status_code := status;
  json := body;
  request := {| prep_headers := ∅; prep_url := GoogleMode.target_url;
                prep_body := [] |};
|}.

(** The reply that carries [Hi] as audio, and a reply of failure. *)
Definition ok_reply : result Response :=
  Ok (reply 200 (Ok (PDict {[ lit "audioContent" := PStr (lit "SGk=") ]}))).
Definition error_reply : result Response := Ok (reply 500 (Ok (PDict ∅))).

Definition five_tracks : str :=
  lit "t1|one" ++ [newline] ++ lit "t2|two" ++ [newline]
  ++ lit "t3|three" ++ [newline] ++ lit "t4|four" ++ [newline]
  ++ lit "t5|five" ++ [newline].

(** [open] turns down a path that holds a NUL character with a
    [ValueError], before the system is asked. *)
Definition write_file_nul (path : str) (data : bytes) (w : world)
  : result unit * world :=
  if bool_decide (0%N ∈ path)
  then (Raise (mk_exn ValueError [PStr (lit "embedded null byte")]), w)
  else write_file path data w.

Definition posix : Env world :=
  Build_Env world stdout_utf8 isfile isdir read_lines write_file_nul post b64decode.

(** A card on which the file of the first track cannot be written. *)
Definition locked_card (tracks : str) (replies : list (result Response))
  : world := {|
  texts := {[ lit "audio_tracks.de.txt" := tracks ]};
  dirs := {[ lit "sd-card" ]};
  files := ∅;
  locked := {[ lit "sd-card/t1.mp3" ]};
  replies := replies;
|}.

(** A standard output in ASCII.  The characters of a line that come
    from the run: the names, texts and paths formatted into it, and
    the strings that an exception carries. *)
Definition UnicodeEncodeError : exc_class :=
  Derived (lit "UnicodeEncodeError") (Derived (lit "UnicodeError") ValueError).

Definition exn_chars (e : exn) : str :=
  mjoin (omap (λ v, match v with PStr s => Some s | _ => None end)
           (exc_args e)).

Definition message_chars (m : message) : str :=
  match m with
  | InputNotAccessible path | OutdirMissing path => path
  | Progress _ _ name text => name ++ text
  | ConversionError text e => text ++ exn_chars e
  | FailedToCreate target => target
  | RequestUrl u => u
  | RequestHeaders h => mjoin ((λ kv, kv.1 ++ kv.2) <$> map_to_list h)
  | RequestBody _ | CreatingTexts | TooManyErrors | NoSubcommand => []
  end.

Definition stdout_ascii (m : message) (w : world) : option exn :=
  if forallb (λ c, c <? 128)%N (message_chars m) then None
  else Some (mk_exn UnicodeEncodeError
               [PStr (lit "'ascii' codec can't encode character")]).

Definition ascii_out : Env world :=
  Build_Env world stdout_ascii isfile isdir read_lines write_file post
    b64decode.

Definition ascii_out_google : Mode world GoogleMode.t :=
  GoogleMode.mode ascii_out.

(** A server that answers every request with [ok_reply], and a card
    on which every file can be written. *)
Definition post_ok (r : Request) (w : world) : result Response * world :=
  (ok_reply, w).

Definition write_any (path : str) (data : bytes) (w : world)
  : result unit * world :=
  (Ok tt, {| texts := texts w; dirs := dirs w;
             files := <[path := data]> (files w);
             locked := locked w; replies := replies w |}).

Definition steady : Env world :=
  Build_Env world stdout_utf8 isfile isdir read_lines write_any post_ok b64decode.

Definition steady_google : Mode world GoogleMode.t := GoogleMode.mode steady.

(** A card whose track list stops being text after its first line:
    the reading gives this line, then fails on the decoding. *)
Definition UnicodeDecodeError : exc_class :=
  Derived (lit "UnicodeDecodeError") (Derived (lit "UnicodeError") ValueError).

Definition read_garbled (path : str) (w : world) : list str * option exn :=
  match texts w !! path with
  | Some text =>
      (take 1 (iter_lines text), Some (mk_exn UnicodeDecodeError []))
  | None => ([], Some (mk_exn FileNotFoundError [PStr path]))
  end.

Definition garbled : Env world :=
  Build_Env world stdout_utf8 isfile isdir read_garbled write_file post b64decode.

(** A run that asks for French. *)
Definition french : GoogleMode.t :=
  GoogleMode.parse_args {| input := lit "audio_tracks.de.txt";
                           outdir := lit "sd-card";
                           lang := lit "fr";
                           google_key := lit "KEY" |}.

End Sim.

(** * Properties *)

(** ** The methods of [str] *)

Section StrFacts.
Implicit Types (s name text : str) (sep c : char).

Lemma count_nil sep : Str.count sep [] = 0.
Proof. reflexivity. Qed.

Lemma count_cons sep c s :
  Str.count sep (c :: s) =
  (if (c =? sep)%N then 1 else 0) + Str.count sep s.
Proof.
  unfold Str.count. destruct (N.eqb_spec c sep) as [->|Hne].
  - by rewrite filter_cons_True.
  - by rewrite filter_cons_False.
Qed.

Lemma count_zero sep s : Str.count sep s = 0 ↔ sep ∉ s.
Proof.
  induction s as [|c s IH]; [by split; [intros _; apply not_elem_of_nil|]|].
  rewrite count_cons, not_elem_of_cons.
  destruct (N.eqb_spec c sep) as [->|Hne]; split.
  - discriminate.
  - by intros [? _].
  - simpl. intros H. split; [congruence | by apply IH].
  - simpl. intros [_ H]. by apply IH.
Qed.

Lemma split_not_nil sep s : Str.split sep s ≠ [].
Proof.
  destruct s as [|c s]; simpl; [done|].
  destruct (c =? sep)%N; [done|]. by destruct (Str.split sep s).
Qed.

(** One more field than there are separators. *)
Lemma split_length sep s : length (Str.split sep s) = S (Str.count sep s).
Proof.
  induction s as [|c s IH]; [done|].
  rewrite count_cons. simpl.
  destruct (c =? sep)%N; simpl; [by rewrite IH|].
  pose proof (split_not_nil sep s).
  destruct (Str.split sep s); [done|]. by rewrite <-IH.
Qed.

Lemma split_without sep s : sep ∉ s → Str.split sep s = [s].
Proof.
  induction s as [|c s IH]; [done|].
  rewrite not_elem_of_cons. intros [Hne Hs]. simpl.
  destruct (N.eqb_spec c sep) as [->|_]; [done|]. by rewrite IH.
Qed.

Lemma split_at_first sep name text :
  sep ∉ name →
  Str.split sep (name ++ sep :: text) = name :: Str.split sep text.
Proof.
  induction name as [|c name IH]; intros Hname; simpl.
  - by rewrite N.eqb_refl.
  - apply not_elem_of_cons in Hname as [Hne Hname].
    destruct (N.eqb_spec c sep) as [->|_]; [done|]. by rewrite IH.
Qed.

(** A string with one separator, taken apart at it. *)
Lemma count_one sep s :
  Str.count sep s = 1 →
  ∃ name text, s = name ++ sep :: text ∧ (sep ∉ name) ∧ (sep ∉ text).
Proof.
  induction s as [|c s IH]; [done|].
  rewrite count_cons. destruct (N.eqb_spec c sep) as [->|Hne]; simpl.
  - intros [= H]. apply count_zero in H.
    exists [], s. split_and!; [done| |done]. apply not_elem_of_nil.
  - intros (name & text & -> & Hname & Htext)%IH.
    exists (c :: name), text. split_and!; [done| |done].
    apply not_elem_of_cons. split; [congruence|done].
Qed.

(** [lstrip] takes a run of white space off the front, and all of it. *)
Lemma lstrip_spec s :
  ∃ l, s = l ++ Str.lstrip s ∧ Forall (λ c, Str.isspace c = true) l
     ∧ ∀ c, head (Str.lstrip s) = Some c → Str.isspace c = false.
Proof.
  induction s as [|c s (l & Hs & Hl & Hhd)]; simpl.
  - exists []. by split_and!.
  - destruct (Str.isspace c) eqn:Hc.
    + exists (c :: l). split_and!; [by rewrite <-app_comm_cons, <-Hs| |done].
      by constructor.
    + exists []. split_and!; [done|done|]. by intros ? [= <-].
Qed.

(** [rstrip] does the same at the end. *)
Lemma rstrip_spec s :
  ∃ r, s = Str.rstrip s ++ r ∧ Forall (λ c, Str.isspace c = true) r
     ∧ ∀ c, last (Str.rstrip s) = Some c → Str.isspace c = false.
Proof.
  unfold Str.rstrip.
  destruct (lstrip_spec (reverse s)) as (l & Hs & Hl & Hhd).
  exists (reverse l). split_and!.
  - by rewrite <-reverse_app, <-Hs, reverse_involutive.
  - by apply Forall_reverse.
  - intros c. rewrite last_reverse. apply Hhd.
Qed.

(** [strip] leaves the string between the white space at its two
    ends: what remains neither starts nor ends with white space. *)
Lemma strip_spec s :
  ∃ l r, s = l ++ Str.strip s ++ r
     ∧ Forall (λ c, Str.isspace c = true) l
     ∧ Forall (λ c, Str.isspace c = true) r
     ∧ (∀ c, head (Str.strip s) = Some c → Str.isspace c = false)
     ∧ (∀ c, last (Str.strip s) = Some c → Str.isspace c = false).
Proof.
  unfold Str.strip.
  destruct (lstrip_spec s) as (l & Hs & Hl & Hhd).
  destruct (rstrip_spec (Str.lstrip s)) as (r & Hm & Hr & Hlast).
  exists l, r. split_and!; [by rewrite <-Hm| done | done | | done].
  intros c Hc. apply Hhd. rewrite Hm.
  destruct (Str.rstrip (Str.lstrip s)); [done|]. exact Hc.
Qed.

Lemma startswith_hash s :
  Str.startswith s (lit "#") = true ↔ head s = Some hash.
Proof.
  change (lit "#") with [hash].
  destruct s as [|c s]; simpl; [done|].
  rewrite andb_true_r, N.eqb_eq. split; [by intros ->|by intros [= ->]].
Qed.
End StrFacts.

(** ** The parser of the track list *)

Section Parser.
Implicit Types (line s name text : str) (elements : list entry).

Lemma parse_line_blank line :
  Str.strip line = [] → Mode.parse_line line = Ok None.
Proof. unfold Mode.parse_line. by intros ->. Qed.

Lemma parse_line_comment line :
  Str.startswith (Str.strip line) (lit "#") = true →
  Mode.parse_line line = Ok None.
Proof.
  unfold Mode.parse_line. intros ->. by destruct (length _ =? 0).
Qed.

(** What is left of a line that is neither blank nor a comment goes
    through [split] and the unpacking. *)
Lemma parse_line_fields line :
  Str.strip line ≠ [] →
  Str.startswith (Str.strip line) (lit "#") = false →
  Mode.parse_line line =
    match Str.split bar (Str.strip line) with
    | [name; text] => Ok (Some (name ++ lit ".mp3", text))
    | fields => Raise (unpack_error (length fields))
    end.
Proof.
  unfold Mode.parse_line. intros Hne ->.
  destruct (Str.strip line); [done|]. reflexivity.
Qed.

Lemma parse_line_malformed line :
  Str.strip line ≠ [] →
  Str.startswith (Str.strip line) (lit "#") = false →
  length (Str.split bar (Str.strip line)) ≠ 2 →
  Mode.parse_line line =
    Raise (unpack_error (length (Str.split bar (Str.strip line)))).
Proof.
  intros Hne Hhash Hlen. rewrite parse_line_fields by done.
  destruct (Str.split bar (Str.strip line)) as [|? [|? [|? ?]]]; done.
Qed.

Lemma parse_line_raises line x :
  Mode.parse_line line = Raise x → exc_type x = ValueError.
Proof.
  unfold Mode.parse_line.
  destruct (length _ =? 0); [done|].
  destruct (Str.startswith _ _); [done|].
  destruct (Str.split bar (Str.strip line)) as [|? [|? [|? ?]]];
    by intros [= <-].
Qed.

(** One malformed line, wherever it stands, is a [ValueError] of the
    whole parse. *)
Lemma parse_lines_malformed lines elements line :
  line ∈ lines →
  Str.strip line ≠ [] →
  Str.startswith (Str.strip line) (lit "#") = false →
  length (Str.split bar (Str.strip line)) ≠ 2 →
  ∃ x, Mode.parse_lines lines elements = Raise x ∧ exc_type x = ValueError.
Proof.
  intros Hin Hne Hhash Hlen. revert elements.
  induction lines as [|l lines IH]; intros elements.
  { by apply elem_of_nil in Hin. }
  simpl. destruct (Mode.parse_line l) as [[e|]|x] eqn:Hl.
  - apply elem_of_cons in Hin as [->|Hin]; [|by apply IH].
    by rewrite parse_line_malformed in Hl.
  - apply elem_of_cons in Hin as [->|Hin]; [|by apply IH].
    by rewrite parse_line_malformed in Hl.
  - exists x. split; [done|]. by eapply parse_line_raises.
Qed.

(** The entries come out in the order of the lines. *)
Lemma parse_lines_app lines1 lines2 elements :
  Mode.parse_lines (lines1 ++ lines2) elements =
    match Mode.parse_lines lines1 elements with
    | Ok elements' => Mode.parse_lines lines2 elements'
    | Raise x => Raise x
    end.
Proof.
  revert elements. induction lines1 as [|l lines1 IH]; intros; [done|].
  simpl. by destruct (Mode.parse_line l) as [[e|]|x].
Qed.
End Parser.

(** C3 (as the code has it).  A line that, once stripped, is not
    empty, does not start with [#] and holds the delimiter once, gives
    the entry [(name + ".mp3", text)], where [name] and [text] are what
    stands before and after the delimiter in the stripped line: the
    line without the white space at its two ends.  So the white space
    after the delimiter stays in [text]; the white space that ends the
    line, its newline included, does not. *)
Theorem parse_line_entry (line : str) :
  Str.strip line ≠ [] →
  Str.startswith (Str.strip line) (lit "#") = false →
  Str.count bar (Str.strip line) = 1 →
  ∃ l name text r,
    line = l ++ (name ++ bar :: text) ++ r
    ∧ Forall (λ c, Str.isspace c = true) l
    ∧ Forall (λ c, Str.isspace c = true) r
    ∧ Str.strip line = name ++ bar :: text
    ∧ (bar ∉ name) ∧ (bar ∉ text)
    ∧ (∀ c, head name = Some c → Str.isspace c = false)
    ∧ (∀ c, last text = Some c → Str.isspace c = false)
    ∧ Mode.parse_line line = Ok (Some (name ++ lit ".mp3", text)).
Proof.
  intros Hne Hhash (name & text & Hs & Hname & Htext)%count_one.
  destruct (strip_spec line) as (l & r & Hline & Hl & Hr & Hhd & Hlast).
  exists l, name, text, r. rewrite Hs in Hline, Hhd, Hlast.
  split_and!; try done.
  - intros c Hc. apply Hhd. by destruct name.
  - intros c Hc. apply Hlast. rewrite last_app, last_cons, Hc. done.
  - rewrite parse_line_fields by done.
    rewrite Hs, split_at_first, split_without by done. done.
Qed.

Lemma parse_line_entry_witness :
  ∃ l name text r,
    lit "  foo|  Hello world  " ++ [newline] = l ++ (name ++ bar :: text) ++ r
    ∧ Forall (λ c, Str.isspace c = true) l
    ∧ Forall (λ c, Str.isspace c = true) r
    ∧ Str.strip (lit "  foo|  Hello world  " ++ [newline]) = name ++ bar :: text
    ∧ (bar ∉ name) ∧ (bar ∉ text)
    ∧ (∀ c, head name = Some c → Str.isspace c = false)
    ∧ (∀ c, last text = Some c → Str.isspace c = false)
    ∧ Mode.parse_line (lit "  foo|  Hello world  " ++ [newline])
      = Ok (Some (name ++ lit ".mp3", text)).
Proof.
  apply (parse_line_entry (lit "  foo|  Hello world  " ++ [newline]));
    vm_compute; congruence.
Defined.

(** C3 (as the claim states it) fails on a line that ends with white
    space: of [foo|Hello ] and its newline, the text after the
    delimiter is [Hello ] and the newline, the entry has [Hello]. *)
Lemma parse_line_drops_trailing_space :
  let line := lit "foo|Hello " ++ [newline] in
  line = lit "foo" ++ bar :: (lit "Hello " ++ [newline])
  ∧ Str.strip line ≠ []
  ∧ Str.startswith line (lit "#") = false
  ∧ Str.count bar line = 1
  ∧ Mode.parse_line line = Ok (Some (lit "foo.mp3", lit "Hello"))
  ∧ Mode.parse_line line
    ≠ Ok (Some (lit "foo" ++ lit ".mp3", lit "Hello " ++ [newline])).
Proof. vm_compute. split_and!; congruence. Qed.

(** The entries built so far stay in front of those that follow. *)
Lemma parse_lines_acc (lines : list str) (elements : list entry) :
  Mode.parse_lines lines elements =
    match Mode.parse_lines lines [] with
    | Ok es => Ok (elements ++ es)
    | Raise x => Raise x
    end.
Proof.
  revert elements. induction lines as [|l lines IH]; intros elements; simpl.
  - by rewrite app_nil_r.
  - destruct (Mode.parse_line l) as [[e|]|x]; [|done..].
    rewrite (IH (elements ++ [e])), (IH [e]).
    destruct (Mode.parse_lines lines []); [|done]. by rewrite <-app_assoc.
Qed.

(** C7.  The four lines [foo|Hello world], [# comment], an empty line
    and [bar|Second] give the two entries [("foo.mp3", "Hello world")]
    and [("bar.mp3", "Second")], in this order, whether the lines come
    bare or as the file iterator yields them, each with its newline.
    In general a line that is blank or a comment adds no entry, and
    the entries of two runs of lines are those of the first run, then
    those of the second. *)
Theorem parse_four_lines :
  Mode.parse_lines
    [lit "foo|Hello world"; lit "# comment"; []; lit "bar|Second"] []
  = Ok [(lit "foo.mp3", lit "Hello world"); (lit "bar.mp3", lit "Second")]
  ∧ iter_lines (lit "foo|Hello world" ++ [newline] ++ lit "# comment"
                ++ [newline] ++ [newline] ++ lit "bar|Second")
    = [lit "foo|Hello world" ++ [newline]; lit "# comment" ++ [newline];
       [newline]; lit "bar|Second"]
  ∧ Mode.parse_lines
      (iter_lines (lit "foo|Hello world" ++ [newline] ++ lit "# comment"
                   ++ [newline] ++ [newline] ++ lit "bar|Second")) []
    = Ok [(lit "foo.mp3", lit "Hello world"); (lit "bar.mp3", lit "Second")]
  ∧ (∀ (line : str) (rest : list str) (elements : list entry),
       Str.strip line = []
       ∨ Str.startswith (Str.strip line) (lit "#") = true →
       Mode.parse_lines (line :: rest) elements
       = Mode.parse_lines rest elements)
  ∧ (∀ lines1 lines2 : list str,
       Mode.parse_lines (lines1 ++ lines2) [] =
         match Mode.parse_lines lines1 [], Mode.parse_lines lines2 [] with
         | Ok es1, Ok es2 => Ok (es1 ++ es2)
         | Raise x, _ => Raise x
         | Ok _, Raise x => Raise x
         end).
Proof.
  split_and!; [by vm_compute..| |].
  - intros line rest elements Hskip. simpl.
    destruct Hskip as [Hblank|Hhash].
    + by rewrite parse_line_blank.
    + by rewrite parse_line_comment.
  - intros lines1 lines2. rewrite parse_lines_app.
    destruct (Mode.parse_lines lines1 []) as [es1|x]; [|done].
    apply parse_lines_acc.
Qed.

(** ** The conversion loop *)

Section Loop.
Context {W M : Type} {cls : Mode W M} (env : Env W) (self : M).
Implicit Types (st : state W) (e : entry) (elements pre post : list entry).
Implicit Types (errors n total i : nat) (x : exn).

(** At three errors the body prints and exits: nothing is tried. *)
Lemma body_abort total i e errors st :
  3 ≤ errors →
  Mode.body env self total i e errors st
  = (Raise exit1, emit st [Print TooManyErrors]).
Proof.
  intros Hge. unfold Mode.body.
  destruct (Nat.leb_spec 3 errors) as [_|?]; [done|lia].
Qed.


Lemma print_accepted m st :
  stdout_error env m (world st) = None →
  print env m st = (Ok tt, emit st [Print m]).
Proof. unfold print. intros ->. by destruct (literal m). Qed.

Lemma print_refused m st x :
  literal m = false → stdout_error env m (world st) = Some x →
  print env m st = (Raise x, st).
Proof. unfold print. by intros -> ->. Qed.

(** Below three errors the entry is tried: the body, path by path,
    the prints that may fail among them.  The progress line is printed
    inside the [try]; the two error lines are printed by the
    handlers. *)
Lemma body_paths total i name text errors st :
  errors < 3 →
  Mode.body env self total i (name, text) errors st =
    let lang := _language self in
    let target := join (_outdir self) name in
    match print env (Progress i total name text) st with
    | (Raise y, st0) =>
        if isinstance y Exception
        then (_ <- print env (ConversionError text y) ;; ret (errors + 1)) st0
        else (Raise y, st0)
    | (Ok _, st0) =>
        match text_to_speech self text lang
                (emit st0 [Synthesize text lang]) with
        | (Raise x, st2) =>
            if isinstance x Exception
            then (_ <- print env (ConversionError text x) ;;
                  ret (errors + 1)) st2
            else (Raise x, st2)
        | (Ok mp3, st2) =>
            match write_file env target mp3 (world st2) with
            | (Ok _, w) =>
                (Ok errors, mk_state w (trace st2 ++ [WriteFile target mp3]))
            | (Raise x, w) =>
                if isinstance x IOError
                then (_ <- print env (FailedToCreate target) ;;
                      ret (errors + 1))
                       (mk_state w (trace st2 ++ [WriteFile target mp3]))
                else (Raise x,
                      mk_state w (trace st2 ++ [WriteFile target mp3]))
            end
        end
    end.
Proof.
  intros Hlt. unfold Mode.body.
  destruct (Nat.leb_spec 3 errors) as [?|_]; [lia|].
  unfold bind at 1. unfold try_except at 1. unfold bind at 1.
  destruct (print env (Progress i total name text) st) as [[[]|y] st0]; simpl.
  - unfold bind at 1. unfold log at 1. unfold bind at 1. unfold emit. simpl.
    destruct (text_to_speech _ _ _ _) as [[mp3|x] st2]; simpl.
    + unfold try_except. unfold bind at 1. unfold log at 1.
      unfold bind at 1. unfold on_world at 1. simpl.
      destruct (write_file _ _ _ _) as [[[]|x] w]; simpl; [done|].
      by destruct (isinstance x IOError).
    + destruct (isinstance x Exception); [|done].
      unfold bind. by destruct (print env _ st2) as [[[]|?] ?].
  - destruct (isinstance y Exception); [|done].
    unfold bind. by destruct (print env _ st0) as [[[]|?] ?].
Qed.

(** The same when every line goes out. *)
Lemma body_attempt total i name text errors st :
  prints_succeed env →
  errors < 3 →
  Mode.body env self total i (name, text) errors st =
    let lang := _language self in
    let target := join (_outdir self) name in
    match text_to_speech self text lang
            (emit st [Print (Progress i total name text);
                      Synthesize text lang]) with
    | (Raise x, st2) =>
        if isinstance x Exception
        then (Ok (errors + 1), emit st2 [Print (ConversionError text x)])
        else (Raise x, st2)
    | (Ok mp3, st2) =>
        match write_file env target mp3 (world st2) with
        | (Ok _, w) =>
            (Ok errors, mk_state w (trace st2 ++ [WriteFile target mp3]))
        | (Raise x, w) =>
            if isinstance x IOError
            then (Ok (errors + 1),
                  mk_state w (trace st2 ++ [WriteFile target mp3;
                                            Print (FailedToCreate target)]))
            else (Raise x,
                  mk_state w (trace st2 ++ [WriteFile target mp3]))
        end
    end.
Proof.
  intros Hout Hlt. rewrite body_paths by done. simpl.
  rewrite print_accepted by apply Hout.
  replace (emit (emit st [Print (Progress i total name text)])
             [Synthesize text (_language self)])
    with (emit st [Print (Progress i total name text);
                   Synthesize text (_language self)])
    by (unfold emit; simpl; by rewrite <-app_assoc).
  destruct (text_to_speech _ _ _ _) as [[mp3|x] st2]; simpl.
  - destruct (write_file _ _ _ _) as [[[]|x] w]; simpl; [done|].
    destruct (isinstance x IOError); [|done].
    unfold bind. rewrite print_accepted by apply Hout.
    unfold ret, emit. simpl. by rewrite <-app_assoc.
  - destruct (isinstance x Exception); [|done].
    unfold bind. by rewrite print_accepted by apply Hout.
Qed.

Lemma loop_nil total i errors st :
  Mode.loop env self total i [] errors st = (Ok errors, st).
Proof. reflexivity. Qed.

Lemma loop_cons total i e rest errors st :
  Mode.loop env self total i (e :: rest) errors st =
    match Mode.body env self total i e errors st with
    | (Ok errors', st') => Mode.loop env self total (S i) rest errors' st'
    | (Raise x, st') => (Raise x, st')
    end.
Proof. reflexivity. Qed.

(** The loop over a list is the loop over its first part, then, if
    that came to its end, the loop over the rest. *)
Lemma loop_app total i pre post errors st :
  Mode.loop env self total i (pre ++ post) errors st =
    match Mode.loop env self total i pre errors st with
    | (Ok n, st1) => Mode.loop env self total (i + length pre) post n st1
    | (Raise x, st1) => (Raise x, st1)
    end.
Proof.
  revert i errors st. induction pre as [|e pre IH]; intros i errors st.
  - simpl. by rewrite Nat.add_0_r.
  - rewrite <-app_comm_cons, !loop_cons.
    destruct (Mode.body _ _ _ _ _ _ _) as [[n|x] st1]; [|done].
    rewrite IH. simpl length. by rewrite Nat.add_succ_r.
Qed.

(** One pass leaves the counter as it is or adds one to it, and it
    comes to its end only from a counter below three. *)
Lemma body_counter total i e errors n st st' :
  Mode.body env self total i e errors st = (Ok n, st') →
  errors < 3 ∧ (n = errors ∨ n = errors + 1).
Proof.
  destruct (decide (errors < 3)) as [Hlt|Hge].
  - destruct e as [name text]. rewrite body_paths by done. simpl.
    assert (Hreport : ∀ m (s0 s1 : state W),
              (_ <- print env m ;; ret (errors + 1)) s0 = (Ok n, s1) →
              errors < 3 ∧ (n = errors ∨ n = errors + 1)).
    { intros m s0 s1. unfold bind, ret.
      destruct (print env m s0) as [[[]|?] ?]; [|done].
      intros [= <- _]. auto. }
    destruct (print env _ st) as [[[]|y] st0].
    + destruct (text_to_speech _ _ _ _) as [[mp3|x] st2].
      * destruct (write_file _ _ _ _) as [[[]|x] w].
        -- intros [= <- _]. auto.
        -- destruct (isinstance x IOError); [|done]. apply Hreport.
      * destruct (isinstance x Exception); [|done]. apply Hreport.
    + destruct (isinstance y Exception); [|done]. apply Hreport.
  - rewrite body_abort by lia. done.
Qed.

Lemma loop_counter total i elements errors n st st' :
  Mode.loop env self total i elements errors st = (Ok n, st') →
  errors ≤ n ≤ errors + length elements
  ∧ (errors ≤ 3 → n ≤ 3).
Proof.
  revert i errors st. induction elements as [|e rest IH]; intros i errors st.
  - rewrite loop_nil. intros [= <- _]. simpl. lia.
  - rewrite loop_cons.
    destruct (Mode.body _ _ _ _ _ _ _) as [[m|x] st1] eqn:Hbody; [|done].
    apply body_counter in Hbody as [Hlt Hm].
    intros [Hn Hle]%IH. simpl length. lia.
Qed.
End Loop.

Section Trace.
Lemma synth_calls_app tr1 tr2 :
  synth_calls (tr1 ++ tr2) = synth_calls tr1 ++ synth_calls tr2.
Proof. apply omap_app. Qed.

Lemma writes_app tr1 tr2 : writes (tr1 ++ tr2) = writes tr1 ++ writes tr2.
Proof. apply omap_app. Qed.


End Trace.

Section Threshold.
Context {W M : Type} {cls : Mode W M} (env : Env W) (self : M).
Implicit Types (st : state W) (e : entry) (elements pre post : list entry).
Implicit Types (errors n total i : nat) (x : exn).

Lemma emit_app st evs1 evs2 :
  emit (emit st evs1) evs2 = emit st (evs1 ++ evs2).
Proof. unfold emit. simpl. by rewrite app_assoc. Qed.

(** With such collaborators a pass below three errors comes to its
    end. *)
Lemma body_completes total i e errors st :
  prints_succeed env →
  backend_raises_exceptions self → writes_raise_ioerrors env →
  errors < 3 →
  ∃ n st', Mode.body env self total i e errors st = (Ok n, st').
Proof.
  intros Hout Hsynth Hwrite Hlt. destruct e as [name text].
  rewrite body_attempt by done. simpl.
  destruct (text_to_speech _ _ _ _) as [[mp3|x] st2] eqn:Hcall.
  - destruct (write_file _ _ _ _) as [[[]|x] w] eqn:Hw; [by eauto|].
    rewrite (Hwrite _ _ _ _ _ Hw). by eauto.
  - rewrite (Hsynth _ _ _ _ _ Hcall). by eauto.
Qed.

(** With such collaborators the loop ends in one of two ways. *)
Lemma loop_ends total i elements errors st :
  prints_succeed env →
  backend_raises_exceptions self → writes_raise_ioerrors env →
  (∃ n st', Mode.loop env self total i elements errors st = (Ok n, st'))
  ∨ (∃ st', Mode.loop env self total i elements errors st
            = (Raise exit1, st')).
Proof.
  intros Hout Hsynth Hwrite. revert i errors st.
  induction elements as [|e rest IH]; intros i errors st.
  - left. rewrite loop_nil. by eauto.
  - rewrite loop_cons. destruct (decide (errors < 3)) as [Hlt|Hge].
    + destruct (body_completes total i e errors st) as (n & st' & ->);
        [done..|]. apply IH.
    + right. rewrite body_abort by lia. by eauto.
Qed.

End Threshold.

Section LoopClaims.
Context {W M : Type} {cls : Mode W M} (env : Env W) (self : M).
Implicit Types (st : state W) (e : entry) (elements pre post : list entry).
Implicit Types (errors n total i : nat) (x : exn).

(** C1 (as the code has it).  The threshold is looked at before an
    entry, not after the last one.  Once the counter has reached 3
    and an entry is still to come, the loop stops before this entry
    with [sys.exit(1)], exit status 1, whatever the collaborators do.
    A loop that comes to its end, status 0, had a counter below 3 in
    front of every entry; the counter may have reached 3 at the last
    one.  With a standard output that takes every line, a backend
    that fails with instances of [Exception] only and files whose
    writing fails with [IOError] only, the status is 0 exactly when
    the counter is below 3 in front of every entry. *)
Theorem exit_status_of_loop total elements st :
  (∀ pre e post n st1,
     elements = pre ++ e :: post →
     Mode.loop env self total 0 pre 0 st = (Ok n, st1) →
     3 ≤ n →
     Mode.loop env self total 0 elements 0 st
     = (Raise exit1, emit st1 [Print TooManyErrors])
     ∧ exit_status (Mode.loop env self total 0 elements 0 st).1 = 1%Z)
  ∧ (∀ n st',
       Mode.loop env self total 0 elements 0 st = (Ok n, st') →
       n ≤ 3
       ∧ exit_status (Mode.loop env self total 0 elements 0 st).1 = 0%Z
       ∧ ∀ pre e post,
           elements = pre ++ e :: post →
           ∃ m st1, Mode.loop env self total 0 pre 0 st = (Ok m, st1)
                    ∧ m < 3)
  ∧ (prints_succeed env →
     backend_raises_exceptions self → writes_raise_ioerrors env →
     (exit_status (Mode.loop env self total 0 elements 0 st).1 = 0%Z
      ↔ ∀ pre e post,
          elements = pre ++ e :: post →
          ∃ n st1, Mode.loop env self total 0 pre 0 st = (Ok n, st1)
                   ∧ n < 3)).
Proof.
  assert (Hprefix : ∀ n st',
    Mode.loop env self total 0 elements 0 st = (Ok n, st') →
    ∀ pre e post,
      elements = pre ++ e :: post →
      ∃ m st1, Mode.loop env self total 0 pre 0 st = (Ok m, st1) ∧ m < 3).
  { intros n st' Hloop pre e post ->. rewrite loop_app in Hloop.
    destruct (Mode.loop env self total 0 pre 0 st) as [[m|x] st1]; [|done].
    exists m, st1. split; [done|].
    destruct (decide (m < 3)) as [|Hge]; [done|].
    rewrite loop_cons, body_abort in Hloop by lia. done. }
  split_and!.
  - intros pre e post n st1 -> Hpre Hn.
    rewrite loop_app, Hpre, loop_cons, body_abort by done. done.
  - intros n st' Hloop. split_and!.
    + apply loop_counter in Hloop. lia.
    + by rewrite Hloop.
    + by eapply Hprefix.
  - intros Hout Hsynth Hwrite. split.
    + intros Hstatus.
      destruct (loop_ends env self total 0 elements 0 st)
        as [(n & st' & Hl)|(st' & Hl)]; [done..| |].
      * by eapply Hprefix.
      * by rewrite Hl in Hstatus.
    + intros Hall.
      induction elements as [|e0 pre0 _] using rev_ind; [done|].
      destruct (Hall pre0 e0 []) as (n & st1 & Hpre & Hn); [done|].
      rewrite loop_app, Hpre, loop_cons.
      destruct (body_completes env self total (0 + length pre0) e0 n st1)
        as (n' & st' & ->); done.
Qed.


(** C8.  Wherever the loop stands in front of an entry, the counter
    is at most 3.  At 3 the pass only prints and exits, so an entry
    is tried from a counter of at most 2; and a pass that comes to
    its end leaves the counter as it was or one higher, at most 3. *)
Theorem errors_never_exceed_three total pre n st st1 :
  Mode.loop env self total 0 pre 0 st = (Ok n, st1) →
  n ≤ 3
  ∧ ∀ i e,
      (3 ≤ n →
       Mode.body env self total i e n st1
       = (Raise exit1, emit st1 [Print TooManyErrors]))
      ∧ (∀ n' st2,
           Mode.body env self total i e n st1 = (Ok n', st2) →
           n ≤ 2 ∧ (n' = n ∨ n' = n + 1) ∧ n' ≤ 3).
Proof.
  intros Hloop. apply loop_counter in Hloop as [_ Hn].
  split; [lia|]. intros i e. split.
  - apply body_abort.
  - intros n' st2 [Hlt Hn']%body_counter. lia.
Qed.

(** C10 (as the code has it).  Once the progress line of an entry is
    out: an instance of [Exception], of whatever class below it, that
    [text_to_speech] raises is caught; when its line is printed it
    counts as one error, no file is written, and the loop goes on
    with the next entry.  An exception that is no instance of
    [Exception] ([KeyboardInterrupt], [SystemExit]) is not caught: it
    goes through the loop and ends the run.  What the writing of the
    file raises is caught and counted, when its line is printed, if
    it is an [IOError]; anything else goes through the loop and ends
    the run.  The two handlers print outside any [try]: a line of
    theirs that the standard output cannot print ends the run on the
    exception of the [print], the error not counted. *)
Theorem loop_handlers total i name text rest errors st :
  errors < 3 →
  stdout_error env (Progress i total name text) (world st) = None →
  let lang := _language self in
  let target := join (_outdir self) name in
  let st1 := emit st [Print (Progress i total name text);
                      Synthesize text lang] in
  (∀ x st2,
     text_to_speech self text lang st1 = (Raise x, st2) →
     isinstance x Exception = true →
     stdout_error env (ConversionError text x) (world st2) = None →
     Mode.loop env self total i ((name, text) :: rest) errors st
     = Mode.loop env self total (S i) rest (errors + 1)
         (emit st2 [Print (ConversionError text x)]))
  ∧ (∀ x st2,
       text_to_speech self text lang st1 = (Raise x, st2) →
       isinstance x Exception = false →
       Mode.loop env self total i ((name, text) :: rest) errors st
       = (Raise x, st2))
  ∧ (∀ mp3 st2 x w,
       text_to_speech self text lang st1 = (Ok mp3, st2) →
       write_file env target mp3 (world st2) = (Raise x, w) →
       isinstance x IOError = true →
       stdout_error env (FailedToCreate target) w = None →
       Mode.loop env self total i ((name, text) :: rest) errors st
       = Mode.loop env self total (S i) rest (errors + 1)
           (mk_state w (trace st2 ++ [WriteFile target mp3;
                                      Print (FailedToCreate target)])))
  ∧ (∀ mp3 st2 x w,
       text_to_speech self text lang st1 = (Ok mp3, st2) →
       write_file env target mp3 (world st2) = (Raise x, w) →
       isinstance x IOError = false →
       Mode.loop env self total i ((name, text) :: rest) errors st
       = (Raise x, mk_state w (trace st2 ++ [WriteFile target mp3])))
  ∧ (∀ x st2 z,
       text_to_speech self text lang st1 = (Raise x, st2) →
       isinstance x Exception = true →
       stdout_error env (ConversionError text x) (world st2) = Some z →
       Mode.loop env self total i ((name, text) :: rest) errors st
       = (Raise z, st2))
  ∧ (∀ mp3 st2 x w z,
       text_to_speech self text lang st1 = (Ok mp3, st2) →
       write_file env target mp3 (world st2) = (Raise x, w) →
       isinstance x IOError = true →
       stdout_error env (FailedToCreate target) w = Some z →
       Mode.loop env self total i ((name, text) :: rest) errors st
       = (Raise z, mk_state w (trace st2 ++ [WriteFile target mp3]))).
Proof.
  intros Hlt Hprogress lang target st1.
  assert (Hst1 : emit (emit st [Print (Progress i total name text)])
                   [Synthesize text lang] = st1).
  { unfold st1. by rewrite emit_app. }
  split_and!.
  - intros x st2 Hcall Hx Hline.
    rewrite loop_cons, body_paths by done. simpl.
    rewrite print_accepted by done. fold lang. rewrite Hst1, Hcall, Hx.
    unfold bind. by rewrite print_accepted by done.
  - intros x st2 Hcall Hx.
    rewrite loop_cons, body_paths by done. simpl.
    rewrite print_accepted by done. fold lang. by rewrite Hst1, Hcall, Hx.
  - intros mp3 st2 x w Hcall Hw Hx Hline.
    rewrite loop_cons, body_paths by done. simpl.
    rewrite print_accepted by done. fold lang target.
    rewrite Hst1, Hcall, Hw, Hx.
    unfold bind. rewrite print_accepted by done.
    unfold ret, emit. simpl. by rewrite <-app_assoc.
  - intros mp3 st2 x w Hcall Hw Hx.
    rewrite loop_cons, body_paths by done. simpl.
    rewrite print_accepted by done. fold lang target.
    by rewrite Hst1, Hcall, Hw, Hx.
  - intros x st2 z Hcall Hx Hline.
    rewrite loop_cons, body_paths by done. simpl.
    rewrite print_accepted by done. fold lang. rewrite Hst1, Hcall, Hx.
    unfold bind. by rewrite (print_refused env _ _ z) by done.
  - intros mp3 st2 x w z Hcall Hw Hx Hline.
    rewrite loop_cons, body_paths by done. simpl.
    rewrite print_accepted by done. fold lang target.
    rewrite Hst1, Hcall, Hw, Hx.
    unfold bind. by rewrite (print_refused env _ _ z) by done.
Qed.
End LoopClaims.

(** ** The backends that are not implemented, and the stand-in world *)

Lemma aws_text_to_speech W (self : AWSMode.t) text lang (st : state W) :
  text_to_speech self text lang st
  = (Raise (mk_exn TypeError
              [PStr (lit "'NotImplementedType' object is not callable")]), st).
Proof. reflexivity. Qed.

Lemma aws_raises_exceptions W (self : AWSMode.t) :
  backend_raises_exceptions (W:=W) self.
Proof. intros text lang st x st'. rewrite aws_text_to_speech. by intros [= <- _]. Qed.


Lemma sim_writes_raise_ioerrors : writes_raise_ioerrors Sim.env.
Proof.
  intros target data w x w'. simpl. unfold Sim.write_file.
  case_bool_decide; [|done]. by intros [= <- _].
Qed.

Lemma sim_prints_succeed : prints_succeed Sim.env.
Proof. done. Qed.

(** C1 (as the claim states it) fails when the third error falls on
    the last entry: over three entries with a backend that is not
    implemented the counter reaches 3, nothing reports a failure, and
    the exit status is 0. *)
Lemma third_error_on_last_entry_exits_zero :
  let st := Sim.start (Sim.card Sim.three_tracks []) in
  Mode.read_elements Sim.env Sim.aws st = (Ok Sim.three, st)
  ∧ (Mode.loop Sim.env Sim.aws 3 0 Sim.three 0 st).1 = Ok 3
  ∧ (AWSMode.create_and_run Sim.env Sim.args st).1 = Ok tt
  ∧ exit_status (AWSMode.create_and_run Sim.env Sim.args st).1 = 0%Z
  ∧ exit_status (Mode.loop Sim.env Sim.aws 3 0 Sim.three 0 st).1 ≠ 1%Z.
Proof. vm_compute. split_and!; congruence. Qed.

Lemma exit_status_of_loop_witness :
  let st := Sim.start (Sim.card Sim.three_tracks []) in
  (prints_succeed Sim.env
   ∧ backend_raises_exceptions (W:=Sim.world) Sim.aws
   ∧ writes_raise_ioerrors Sim.env)
  ∧ (exit_status (Mode.loop Sim.env Sim.aws 4 0 Sim.four 0 st).1 = 0%Z
     ↔ ∀ pre e post,
         Sim.four = pre ++ e :: post →
         ∃ n st1, Mode.loop Sim.env Sim.aws 4 0 pre 0 st = (Ok n, st1)
                  ∧ n < 3).
Proof.
  intros st. split.
  - split; [apply sim_prints_succeed|].
    split; [apply aws_raises_exceptions|apply sim_writes_raise_ioerrors].
  - destruct (exit_status_of_loop Sim.env Sim.aws 4 Sim.four st)
      as (_ & _ & Hiff).
    apply Hiff.
    + apply sim_prints_succeed.
    + apply aws_raises_exceptions.
    + apply sim_writes_raise_ioerrors.
Defined.



Lemma errors_never_exceed_three_witness :
  let st := Sim.start (Sim.card Sim.three_tracks []) in
  let st1 := (Mode.loop Sim.env Sim.aws 3 0 Sim.three 0 st).2 in
  3 ≤ 3
  ∧ ∀ i e,
      (3 ≤ 3 →
       Mode.body Sim.env Sim.aws 3 i e 3 st1
       = (Raise exit1, emit st1 [Print TooManyErrors]))
      ∧ (∀ n' st2,
           Mode.body Sim.env Sim.aws 3 i e 3 st1 = (Ok n', st2) →
           3 ≤ 2 ∧ (n' = 3 ∨ n' = 3 + 1) ∧ n' ≤ 3).
Proof.
  intros st st1.
  apply (errors_never_exceed_three Sim.env Sim.aws 3 Sim.three 3 st st1).
  reflexivity.
Defined.

(** C10 (as the claim states it) fails for an exception that is no
    instance of [Exception]: a [KeyboardInterrupt] out of the request
    of the first entry is not counted, and the second entry is not
    tried. *)
Lemma keyboard_interrupt_ends_loop :
  let st := Sim.start (Sim.card Sim.three_tracks
                         [Raise (mk_exn KeyboardInterrupt []);
                          Sim.ok_reply]) in
  let two := [(lit "a.mp3", lit "x"); (lit "b.mp3", lit "y")] in
  text_to_speech Sim.google (lit "x") (lit "de")
    (emit st [Print (Progress 0 2 (lit "a.mp3") (lit "x"));
              Synthesize (lit "x") (lit "de")])
  = (Raise (mk_exn KeyboardInterrupt []),
     emit (Sim.start (Sim.card Sim.three_tracks [Sim.ok_reply]))
       [Print (Progress 0 2 (lit "a.mp3") (lit "x"));
        Synthesize (lit "x") (lit "de")])
  ∧ (Mode.loop Sim.env Sim.google 2 0 two 0 st).1
    = Raise (mk_exn KeyboardInterrupt [])
  ∧ (∀ n, (Mode.loop Sim.env Sim.google 2 0 two 0 st).1 ≠ Ok n)
  ∧ synth_calls (trace (Mode.loop Sim.env Sim.google 2 0 two 0 st).2)
    = [(lit "x", lit "de")].
Proof. vm_compute. split_and!; congruence. Qed.

Lemma loop_handlers_witness :
  let st := Sim.start (Sim.locked_card Sim.three_tracks [Sim.ok_reply]) in
  let locked := Sim.locked_card Sim.three_tracks [] in
  Mode.loop Sim.env Sim.google 1 0 [(lit "t1.mp3", lit "x")] 0 st
  = (Ok 1,
     mk_state locked
       [Print (Progress 0 1 (lit "t1.mp3") (lit "x"));
        Synthesize (lit "x") (lit "de");
        WriteFile (lit "sd-card/t1.mp3") [Byte.x48; Byte.x69];
        Print (FailedToCreate (lit "sd-card/t1.mp3"))]).
Proof.
  intros st locked.
  destruct (loop_handlers Sim.env Sim.google 1 0 (lit "t1.mp3") (lit "x")
              [] 0 st) as (_ & _ & Hwrite & _); [lia|reflexivity|].
  rewrite (Hwrite [Byte.x48; Byte.x69]
             (mk_state locked
                [Print (Progress 0 1 (lit "t1.mp3") (lit "x"));
                 Synthesize (lit "x") (lit "de")])
             (mk_exn Sim.PermissionError [PStr (lit "sd-card/t1.mp3")])
             locked);
    reflexivity.
Defined.

(** ** The run as a whole *)

Section Run.
Context {W M : Type} {cls : Mode W M} (env : Env W) (self : M).
Implicit Types (st : state W) (line : str).

(** Reading and parsing leave the state as it is. *)
Lemma read_elements_pure st :
  ∃ r, Mode.read_elements env self st = (r, st).
Proof.
  unfold Mode.read_elements, bind, ask, lift, raise, ret.
  destruct (Mode.parse_lines _ _); [|by eauto].
  destruct (read_lines _ _ _).2; by eauto.
Qed.

Lemma read_elements_malformed st line :
  line ∈ (read_lines env (_input self) (world st)).1 →
  Str.strip line ≠ [] →
  Str.startswith (Str.strip line) (lit "#") = false →
  length (Str.split bar (Str.strip line)) ≠ 2 →
  ∃ x, Mode.read_elements env self st = (Raise x, st)
       ∧ exc_type x = ValueError.
Proof.
  intros Hin Hne Hhash Hlen.
  destruct (parse_lines_malformed _ [] _ Hin Hne Hhash Hlen) as (x & Hx & Hty).
  exists x. split; [|done].
  unfold Mode.read_elements, bind, ask, lift. by rewrite Hx.
Qed.

(** Once the two checks have passed, [run] is the parse of the whole
    file, then the conversion of the entries it gave. *)
Lemma run_parse_then_convert st :
  isfile env (_input self) (world st) = true →
  isdir env (_outdir self) (world st) = true →
  Mode.run env self st =
    match Mode.read_elements env self st with
    | (Ok elements, st1) =>
        match Mode.convert env self elements st1 with
        | (Ok _, st2) => (Ok tt, st2)
        | (Raise x, st2) => (Raise x, st2)
        end
    | (Raise x, st1) => (Raise x, st1)
    end.
Proof.
  intros Hfile Hdir. unfold Mode.run, bind at 1, ask at 1.
  rewrite Hfile. simpl. unfold bind at 1, ask at 1.
  rewrite Hdir. simpl. unfold bind at 1.
  destruct (Mode.read_elements env self st) as [[elements|x] st1]; [|done].
  unfold bind, ret. by destruct (Mode.convert _ _ _ _) as [[?|?] ?].
Qed.

Lemma print_cases (m : message) st :
  print env m st = (Ok tt, emit st [Print m])
  ∨ ∃ x, print env m st = (Raise x, st).
Proof.
  unfold print. destruct (literal m); [by left|].
  destruct (stdout_error env m (world st)); [right|left]; by eauto.
Qed.

(** A run that fails one of the two checks prints its line, if the
    standard output takes it, and exits. *)
Lemma run_check_paths st :
  (isfile env (_input self) (world st) = false →
   Mode.run env self st
   = (_ <- print env (InputNotAccessible (_input self)) ;; sys_exit 1) st)
  ∧ (isfile env (_input self) (world st) = true →
     isdir env (_outdir self) (world st) = false →
     Mode.run env self st
     = (_ <- print env (OutdirMissing (_outdir self)) ;; sys_exit 1) st).
Proof.
  split.
  - intros Hfile. unfold Mode.run, bind at 1, ask at 1. by rewrite Hfile.
  - intros Hfile Hdir. unfold Mode.run, bind at 1, ask at 1.
    rewrite Hfile. simpl. unfold bind at 1, ask at 1. by rewrite Hdir.
Qed.

Lemma run_check_fails st :
  isfile env (_input self) (world st) = false
  ∨ isdir env (_outdir self) (world st) = false →
  ∃ x st', Mode.run env self st = (Raise x, st')
           ∧ world st' = world st
           ∧ synth_calls (trace st') = synth_calls (trace st)
           ∧ writes (trace st') = writes (trace st).
Proof.
  intros Hchk.
  assert (Hline : ∀ m, ∃ x st',
            (_ <- print env m ;; (sys_exit 1 : io W unit)) st
            = (Raise x, st')
            ∧ world st' = world st
            ∧ synth_calls (trace st') = synth_calls (trace st)
            ∧ writes (trace st') = writes (trace st)).
  { intros m. unfold bind.
    destruct (print_cases m st) as [->|[x ->]].
    - eexists _, _. split; [reflexivity|]. simpl.
      by rewrite synth_calls_app, writes_app, !app_nil_r.
    - by exists x, st. }
  destruct (run_check_paths st) as [Hin Hout].
  destruct (isfile env (_input self) (world st)) eqn:Hfile.
  - destruct Hchk as [?|Hdir]; [done|]. rewrite Hout by done. apply Hline.
  - rewrite Hin by done. apply Hline.
Qed.

(** C9.  Once the two checks have passed, the run parses the whole
    file, leaving the state as it is, and only then converts the
    entries.  A line that is neither blank nor a comment and that
    [split] does not cut into two fields is a [ValueError] of the
    parse that nothing catches: with such a line anywhere in the
    file, the run ends on this error in the state it started from,
    no call of the backend made and no file written. *)
Theorem malformed_line_ends_run_before_conversion st :
  (isfile env (_input self) (world st) = true →
   isdir env (_outdir self) (world st) = true →
   ∃ r, Mode.read_elements env self st = (r, st)
        ∧ Mode.run env self st =
            match r with
            | Ok elements =>
                match Mode.convert env self elements st with
                | (Ok _, st2) => (Ok tt, st2)
                | (Raise x, st2) => (Raise x, st2)
                end
            | Raise x => (Raise x, st)
            end)
  ∧ ∀ line,
      line ∈ (read_lines env (_input self) (world st)).1 →
      Str.strip line ≠ [] →
      Str.startswith (Str.strip line) (lit "#") = false →
      length (Str.split bar (Str.strip line)) ≠ 2 →
      (isfile env (_input self) (world st) = true →
       isdir env (_outdir self) (world st) = true →
       ∃ x, Mode.run env self st = (Raise x, st)
            ∧ exc_type x = ValueError
            ∧ isinstance x SystemExit = false)
      ∧ ∃ x st', Mode.run env self st = (Raise x, st')
                 ∧ world st' = world st
                 ∧ synth_calls (trace st') = synth_calls (trace st)
                 ∧ writes (trace st') = writes (trace st).
Proof.
  split.
  - intros Hfile Hdir. destruct (read_elements_pure st) as [r Hr].
    exists r. split; [done|].
    rewrite run_parse_then_convert, Hr by done. by destruct r.
  - intros line Hin Hne Hhash Hlen.
    destruct (read_elements_malformed st line) as (x & Hx & Hty); [done..|].
    assert (Hrun : isfile env (_input self) (world st) = true →
                   isdir env (_outdir self) (world st) = true →
                   Mode.run env self st = (Raise x, st)).
    { intros Hfile Hdir. by rewrite run_parse_then_convert, Hx. }
    split.
    + intros Hfile Hdir. exists x. split_and!; [by apply Hrun|done|].
      unfold isinstance. by rewrite Hty.
    + destruct (isfile env (_input self) (world st)) eqn:Hfile;
        [destruct (isdir env (_outdir self) (world st)) eqn:Hdir|].
      * exists x, st. by rewrite Hrun.
      * apply run_check_fails. by right.
      * apply run_check_fails. by left.
Qed.
End Run.

Lemma malformed_line_ends_run_before_conversion_witness :
  let st := Sim.start (Sim.card Sim.bad_tracks
                         [Ok (Sim.reply 200 (Ok (PDict ∅)))]) in
  let line := lit "no delimiter" ++ [newline] in
  (line ∈ (read_lines Sim.env (_input (W:=Sim.world) Sim.google) (world st)).1
   ∧ Str.strip line ≠ []
   ∧ Str.startswith (Str.strip line) (lit "#") = false
   ∧ length (Str.split bar (Str.strip line)) ≠ 2)
  ∧ (∃ x, Mode.run Sim.env Sim.google st
          = (Raise x, st)
          ∧ exc_type x = ValueError
          ∧ isinstance x SystemExit = false)
  ∧ ∃ x st', Mode.run Sim.env Sim.google st
             = (Raise x, st')
             ∧ world st' = world st
             ∧ synth_calls (trace st') = synth_calls (trace st)
             ∧ writes (trace st') = writes (trace st).
Proof.
  intros st line.
  assert (Hin : line ∈ (read_lines Sim.env
                          (_input (W:=Sim.world) Sim.google) (world st)).1).
  { vm_compute. apply list_elem_of_In. right. left. reflexivity. }
  assert (Hne : Str.strip line ≠ []) by (vm_compute; congruence).
  assert (Hhash : Str.startswith (Str.strip line) (lit "#") = false)
    by reflexivity.
  assert (Hlen : length (Str.split bar (Str.strip line)) ≠ 2)
    by (vm_compute; lia).
  split; [done|].
  destruct (malformed_line_ends_run_before_conversion Sim.env Sim.google st)
    as [_ Hbad].
  destruct (Hbad line Hin Hne Hhash Hlen) as [Hrun Hquiet].
  split; [|exact Hquiet]. apply Hrun; reflexivity.
Defined.

(** ** The backends *)

Lemma bind_ok {W A B} (m : io W A) (k : A → io W B) st a st' :
  m st = (Ok a, st') → bind m k st = k a st'.
Proof. unfold bind. by intros ->. Qed.

Lemma lit_inj : Inj (=) (=) lit.
Proof.
  assert (Hinj : Inj (=) (=) (λ a : ascii, N_of_ascii a)).
  { intros a b Hab.
    rewrite <-(ascii_N_embedding a), <-(ascii_N_embedding b). by f_equal. }
  intros s1 s2 Heq. unfold lit in Heq.
  apply (list_fmap_eq_inj _ Hinj) in Heq.
  rewrite <-(string_of_list_ascii_of_string s1),
    <-(string_of_list_ascii_of_string s2). by f_equal.
Qed.

(** The text of an int tells the int. *)
Lemma str_of_int_inj : Inj (=) (=) str_of_int.
Proof. intros a b Heq. unfold str_of_int in Heq. by apply lit_inj, (inj pretty) in Heq. Qed.

(** The table of [GoogleMode] has two keys. *)
Lemma voice_by_lang_keys (lang : str) :
  GoogleMode.voice_by_lang !! lang = None ↔ lang ≠ lit "de" ∧ lang ≠ lit "en".
Proof.
  unfold GoogleMode.voice_by_lang. simpl list_to_map.
  split.
  - intros Hnone. split; intros ->; vm_compute in Hnone; discriminate.
  - intros [Hde Hen].
    rewrite lookup_insert_ne, lookup_insert_ne, lookup_empty; done.
Qed.

(** C4 (as the code has it).  With a language of the table and a
    response [r] to the request.  A status other than
    [requests.codes.ok] is never audio: once the dump of the request
    is printed, it is an exception whose message gives the status.
    With this status, the body decides: an error of [r.json()] goes
    through; a JSON object without [audioContent] is the exception
    that says so, and an object with it gives what [b64decode] makes
    of the field, bytes or an error; a body that is no object is
    never audio: [null], a boolean or a number is a [TypeError] of
    the test [in], a list or a string is a [TypeError] of the
    subscript if it holds [audioContent] and the exception of the
    missing field if not. *)
Theorem google_response_handling {W} (env : Env W) (self : GoogleMode.t)
    (text lang : str) (voice : pyval) (st : state W) (r : Response) (w : W) :
  GoogleMode.voice_by_lang !! lang = Some voice →
  post env (GoogleMode.post_args self text voice) (world st) = (Ok r, w) →
  let st' := mk_state w (trace st) in
  let missing :=
    mk_exn Exception [PStr (lit "audioContent not in the response json")] in
  let not_iterable :=
    mk_exn TypeError [PStr (lit "argument is not iterable")] in
  let not_subscript :=
    mk_exn TypeError [PStr (lit "indices must be integers")] in
  (status_code r ≠ GoogleMode.codes_ok →
   (∃ x st'', GoogleMode.text_to_speech env self text lang st
              = (Raise x, st''))
   ∧ (stdout_error env (RequestHeaders (prep_headers (request r))) w = None →
      stdout_error env (RequestUrl (prep_url (request r))) w = None →
      stdout_error env (RequestBody (prep_body (request r))) w = None →
      GoogleMode.text_to_speech env self text lang st
      = (Raise (mk_exn Exception
                  [PStr (lit "Request failed with status: "
                         ++ str_of_int (status_code r))]),
         emit st' [Print (RequestHeaders (prep_headers (request r)));
                   Print (RequestUrl (prep_url (request r)));
                   Print (RequestBody (prep_body (request r)))])))
  ∧ (status_code r = GoogleMode.codes_ok →
     GoogleMode.text_to_speech env self text lang st
     = (match json r with
        | Raise x => Raise x
        | Ok (PDict d) =>
            match d !! lit "audioContent" with
            | None => Raise missing
            | Some content => b64decode env content
            end
        | Ok (PList l) =>
            if existsb (λ v, match v with
                             | PStr s => bool_decide (s = lit "audioContent")
                             | _ => false
                             end) l
            then Raise not_subscript else Raise missing
        | Ok (PStr s) =>
            if Str.contains s (lit "audioContent")
            then Raise not_subscript else Raise missing
        | Ok (PNone | PBool _ | PInt _ | PFloat _) => Raise not_iterable
        end, st'))
  ∧ (∀ code : Z,
       lit "Request failed with status: " ++ str_of_int code
       = lit "Request failed with status: " ++ str_of_int (status_code r) →
       code = status_code r).
Proof.
  intros Hvoice Hpost st' missing not_iterable not_subscript.
  assert (Hhead : ∀ k : Response → io W (list Byte.byte),
    (voice <- lift (getitem (PDict GoogleMode.voice_by_lang) lang) ;;
     r <- on_world (post env (GoogleMode.post_args self text voice)) ;;
     k r) st = k r st').
  { intros k. erewrite bind_ok; [|by unfold lift; simpl; rewrite Hvoice].
    erewrite bind_ok; [done|]. unfold on_world. by rewrite Hpost. }
  split_and!; [intros Hstatus|intros Hstatus|];
    [unfold GoogleMode.text_to_speech; rewrite Hhead..|].
  - apply Z.eqb_neq in Hstatus. rewrite Hstatus. cbn [negb]. split.
    + unfold bind.
      destruct (print_cases env (RequestHeaders (prep_headers (request r))) st')
        as [->|[x ->]]; [|by eauto].
      destruct (print_cases env (RequestUrl (prep_url (request r)))
                  (emit st' [Print (RequestHeaders (prep_headers (request r)))]))
        as [->|[x ->]]; [|by eauto].
      destruct (print_cases env (RequestBody (prep_body (request r)))
                  (emit (emit st' [Print (RequestHeaders
                                            (prep_headers (request r)))])
                     [Print (RequestUrl (prep_url (request r)))]))
        as [->|[x ->]]; by eauto.
    + intros Hh Hu Hb. unfold bind.
      rewrite !print_accepted by done. unfold raise, emit. simpl.
      by rewrite <-!app_assoc.
  - apply Z.eqb_eq in Hstatus. rewrite Hstatus. cbn [negb].
    unfold bind, lift, raise.
    destruct (json r) as [js|x]; [|done].
    destruct js as [| | | |s|l|d]; simpl; try done.
    + by destruct (Str.contains s _).
    + by destruct (existsb _ l).
    + destruct (d !! lit "audioContent") as [content|] eqn:Hfield.
      * by rewrite bool_decide_eq_true_2 by eauto.
      * by rewrite bool_decide_eq_false_2 by (by intros [? ?]).
  - intros code Hmsg. apply (inj (app _)) in Hmsg.
    by apply str_of_int_inj in Hmsg.
Qed.

(** C4 (as the claim states it) fails on a response of status 200
    whose body is not as the claim takes it to be.  The JSON [null]
    has no field [audioContent], and the failure is a [TypeError] of
    the test [in], not the exception of the missing field; the list
    [["audioContent"]] passes the test and fails on the subscript;
    and an object whose [audioContent] is the number 123 has the
    field, yet no bytes come back: [b64decode] raises a
    [TypeError]. *)
Lemma google_odd_bodies :
  let ask body :=
    (GoogleMode.text_to_speech Sim.env Sim.google (lit "x") (lit "de")
       (Sim.start (Sim.card Sim.three_tracks
                     [Ok (Sim.reply 200 (Ok body))]))).1 in
  let missing :=
    mk_exn Exception [PStr (lit "audioContent not in the response json")] in
  (ask PNone = Raise (mk_exn TypeError [PStr (lit "argument is not iterable")])
   ∧ ask PNone ≠ Raise missing)
  ∧ (ask (PList [PStr (lit "audioContent")])
     = Raise (mk_exn TypeError [PStr (lit "indices must be integers")])
     ∧ ask (PList [PStr (lit "audioContent")]) ≠ Raise missing)
  ∧ (ask (PDict {[ lit "audioContent" := PInt 123 ]})
     = Raise (mk_exn TypeError
                [PStr (lit "expected bytes-like object or str")])
     ∧ ∀ b, ask (PDict {[ lit "audioContent" := PInt 123 ]}) ≠ Ok b).
Proof. vm_compute. split_and!; congruence. Qed.

Lemma google_response_handling_witness :
  let st := Sim.start (Sim.card Sim.three_tracks
              [Ok (Sim.reply 200
                     (Ok (PDict {[ lit "audioContent" := PStr (lit "SGk=") ]})))]) in
  GoogleMode.text_to_speech Sim.env Sim.google (lit "x") (lit "de") st
  = (Ok [Byte.x48; Byte.x69],
     mk_state (Sim.card Sim.three_tracks []) []).
Proof.
  intros st.
  destruct (google_response_handling Sim.env Sim.google (lit "x") (lit "de")
              (PDict (list_to_map
                 [ (lit "languageCode", PStr (lit "de-DE"));
                   (lit "name", PStr (lit "de-DE-Wavenet-C")) ]))
              st
              (Sim.reply 200
                 (Ok (PDict {[ lit "audioContent" := PStr (lit "SGk=") ]})))
              (Sim.card Sim.three_tracks []))
    as (_ & Hok & _); [reflexivity | reflexivity |].
  rewrite (Hok eq_refl). reflexivity.
Defined.

(** C5.  A language that the table of [GoogleMode] does not hold is a
    [KeyError], which is a [LookupError], raised before anything is
    sent: no request goes out, with whatever voice. *)
Theorem unmapped_language_is_lookup_error {W} (env : Env W)
    (self : GoogleMode.t) (text lang : str) (st : state W) :
  GoogleMode.voice_by_lang !! lang = None →
  GoogleMode.text_to_speech env self text lang st
  = (Raise (mk_exn KeyError [PStr lang]), st)
  ∧ isinstance (mk_exn KeyError [PStr lang]) LookupError = true.
Proof.
  intros Hnone. split; [|done].
  unfold GoogleMode.text_to_speech, bind, lift. simpl getitem.
  by rewrite Hnone.
Qed.

Lemma unmapped_language_is_lookup_error_witness :
  let st := Sim.start (Sim.card Sim.three_tracks
                         [Ok (Sim.reply 200 (Ok (PDict ∅)))]) in
  GoogleMode.voice_by_lang !! lit "fr" = None
  ∧ GoogleMode.text_to_speech Sim.env Sim.google (lit "x") (lit "fr") st
    = (Raise (mk_exn KeyError [PStr (lit "fr")]), st)
  ∧ isinstance (mk_exn KeyError [PStr (lit "fr")]) LookupError = true.
Proof.
  intros st. split; [reflexivity|].
  apply (unmapped_language_is_lookup_error Sim.env Sim.google
           (lit "x") (lit "fr") st).
  reflexivity.
Defined.

(** C6 (what the code does).  [raise NotImplemented()] calls the
    constant [NotImplemented], which is not callable: the
    [text_to_speech] of [AWSMode] and of [SayMode] fail on every text
    and language, and the failure is a [TypeError], not a
    [NotImplementedError]. *)
Theorem unimplemented_modes_raise_type_error {W} (aws : AWSMode.t)
    (say : SayMode.t) (text lang : str) (st : state W) :
  let x := mk_exn TypeError
             [PStr (lit "'NotImplementedType' object is not callable")] in
  AWSMode.text_to_speech aws text lang st = (Raise x, st)
  ∧ SayMode.text_to_speech say text lang st = (Raise x, st)
  ∧ isinstance x NotImplementedError = false
  ∧ isinstance x Exception = true.
Proof. done. Qed.

Lemma parse_four_lines_witness :
  Str.startswith (Str.strip (lit "# comment" ++ [newline])) (lit "#") = true
  ∧ Mode.parse_lines [lit "# comment" ++ [newline]; lit "bar|Second"] []
    = Mode.parse_lines [lit "bar|Second"] [].
Proof.
  split; [reflexivity|].
  destruct parse_four_lines as (_ & _ & _ & Hskip & _).
  apply (Hskip (lit "# comment" ++ [newline]) [lit "bar|Second"] []).
  right. reflexivity.
Defined.

(** ** Runs in the stand-in world *)

(** The exit status of a run that has passed its checks and parsed its
    file is that of its loop. *)
Lemma run_result_of_loop {W M} {cls : Mode W M} (env : Env W) (self : M)
    (st : state W) (elements : list entry) :
  isfile env (_input self) (world st) = true →
  isdir env (_outdir self) (world st) = true →
  Mode.read_elements env self st = (Ok elements, st) →
  (Mode.run env self st).1 =
    match (Mode.loop env self (length elements) 0 elements 0
             (emit st [Print CreatingTexts])).1 with
    | Ok _ => Ok tt
    | Raise x => Raise x
    end.
Proof.
  intros Hfile Hdir Hread. rewrite run_parse_then_convert, Hread by done.
  unfold Mode.convert, bind, print, log. simpl. unfold emit.
  by destruct (Mode.loop _ _ _ _ _ _ _) as [[?|?] ?].
Qed.

(** Five entries, the second and the fourth of which the server turns
    down: the run comes to its end with two errors, status 0, and the
    three files of the entries 1, 3 and 5 hold the bytes received. *)
Example mixed_run :
  let st := Sim.start (Sim.card Sim.five_tracks
              [Sim.ok_reply; Sim.error_reply; Sim.ok_reply;
               Sim.error_reply; Sim.ok_reply]) in
  let r := GoogleMode.create_and_run Sim.env Sim.args st in
  r.1 = Ok tt
  ∧ exit_status r.1 = 0%Z
  ∧ synth_calls (trace r.2)
    = [(lit "one", lit "de"); (lit "two", lit "de"); (lit "three", lit "de");
       (lit "four", lit "de"); (lit "five", lit "de")]
  ∧ writes (trace r.2)
    = [(lit "sd-card/t1.mp3", [Byte.x48; Byte.x69]);
       (lit "sd-card/t3.mp3", [Byte.x48; Byte.x69]);
       (lit "sd-card/t5.mp3", [Byte.x48; Byte.x69])]
  ∧ Sim.files (world r.2) !! lit "sd-card/t3.mp3" = Some [Byte.x48; Byte.x69]
  ∧ Sim.files (world r.2) !! lit "sd-card/t2.mp3" = None.
Proof. vm_compute. done. Qed.

(** A file that cannot be opened for writing is one error, and the
    run goes on. *)
Example locked_file_is_counted :
  let st := Sim.start (Sim.locked_card Sim.three_tracks
              [Sim.ok_reply; Sim.ok_reply; Sim.ok_reply]) in
  let two := [(lit "t1.mp3", lit "x"); (lit "b.mp3", lit "y")] in
  let r := Mode.loop Sim.env Sim.google 2 0 two 0 st in
  r.1 = Ok 1
  ∧ writes (trace r.2)
    = [(lit "sd-card/t1.mp3", [Byte.x48; Byte.x69]);
       (lit "sd-card/b.mp3", [Byte.x48; Byte.x69])]
  ∧ Sim.files (world r.2) !! lit "sd-card/t1.mp3" = None
  ∧ Sim.files (world r.2) !! lit "sd-card/b.mp3" = Some [Byte.x48; Byte.x69].
Proof. vm_compute. done. Qed.

(** A name with a NUL character makes [open] raise a [ValueError],
    which is no [IOError]: it ends the run, the second entry is not
    tried, and the status is 1. *)
Example value_error_of_open_ends_run :
  let st := Sim.start (Sim.card Sim.three_tracks
                         [Sim.ok_reply; Sim.ok_reply]) in
  let two := [([97; 0] ++ lit ".mp3", lit "x"); (lit "b.mp3", lit "y")]%N in
  let r := Mode.loop (cls:=GoogleMode.mode Sim.posix) Sim.posix Sim.google
             2 0 two 0 st in
  (∃ x, r.1 = Raise x ∧ exc_type x = ValueError
        ∧ isinstance x IOError = false)
  ∧ exit_status r.1 = 1%Z
  ∧ synth_calls (trace r.2) = [(lit "x", lit "de")]
  ∧ Sim.files (world r.2) = ∅.
Proof. vm_compute. split_and!; [by eexists|done..]. Qed.

(** * Further properties of the script *)

(** ** The parser, line by line *)

Section ParserMore.
Implicit Types (line s name text l r : str) (e : entry).

(** Two fields come from a string with one separator, and are its two
    sides. *)
Lemma split_two sep s a b :
  Str.split sep s = [a; b] → s = a ++ sep :: b ∧ (sep ∉ a) ∧ (sep ∉ b).
Proof.
  intros Hsplit. pose proof (split_length sep s) as Hlen.
  rewrite Hsplit in Hlen. simpl in Hlen.
  destruct (count_one sep s) as (name & text & -> & Hname & Htext); [lia|].
  rewrite split_at_first, split_without in Hsplit by done.
  by injection Hsplit as <- <-.
Qed.

Lemma is_entry_line_spec line :
  is_entry_line line = true ↔
  Str.strip line ≠ [] ∧ Str.startswith (Str.strip line) (lit "#") = false.
Proof.
  unfold is_entry_line. rewrite andb_true_iff, !negb_true_iff, Nat.eqb_neq.
  split; intros [Hne Hhash]; (split; [|done]).
  - intros Hnil. by rewrite Hnil in Hne.
  - intros Hlen. by apply nil_length_inv in Hlen.
Qed.

Lemma parse_line_skips line :
  is_entry_line line = false → Mode.parse_line line = Ok None.
Proof.
  unfold is_entry_line, Mode.parse_line.
  destruct (length (Str.strip line) =? 0); [done|].
  by destruct (Str.startswith _ _).
Qed.

(** What a line that gives an entry looks like. *)
Lemma parse_line_some line e :
  Mode.parse_line line = Ok (Some e) →
  is_entry_line line = true
  ∧ ∃ name text,
      Str.strip line = name ++ bar :: text
      ∧ (bar ∉ name) ∧ (bar ∉ text)
      ∧ e = (name ++ lit ".mp3", text).
Proof.
  intros Hline. destruct (is_entry_line line) eqn:Hkept.
  - split; [done|]. apply is_entry_line_spec in Hkept as [Hne Hhash].
    rewrite parse_line_fields in Hline by done.
    destruct (Str.split bar (Str.strip line)) as [|a [|b [|? ?]]] eqn:Hsplit;
      try done.
    injection Hline as <-. apply split_two in Hsplit as (Hs & Ha & Hb).
    by exists a, b.
  - by rewrite parse_line_skips in Hline.
Qed.

Lemma lstrip_spaces l :
  Forall (λ c, Str.isspace c = true) l → Str.lstrip l = [].
Proof. induction 1 as [|c l Hc _ IH]; simpl; [done|]. by rewrite Hc. Qed.

Lemma lstrip_app s r :
  Str.lstrip (s ++ r) =
    match Str.lstrip s with
    | [] => Str.lstrip r
    | _ => Str.lstrip s ++ r
    end.
Proof.
  induction s as [|c s IH]; simpl; [done|].
  by destruct (Str.isspace c).
Qed.

Lemma lstrip_spaces_app l s :
  Forall (λ c, Str.isspace c = true) l → Str.lstrip (l ++ s) = Str.lstrip s.
Proof. intros Hl. by rewrite lstrip_app, lstrip_spaces. Qed.

Lemma rstrip_app_spaces s r :
  Forall (λ c, Str.isspace c = true) r → Str.rstrip (s ++ r) = Str.rstrip s.
Proof.
  intros Hr. unfold Str.rstrip.
  rewrite reverse_app, lstrip_spaces_app; [done|]. by apply Forall_reverse.
Qed.

(** White space around a string does not show in what [strip] gives. *)
Lemma strip_spaces l s r :
  Forall (λ c, Str.isspace c = true) l →
  Forall (λ c, Str.isspace c = true) r →
  Str.strip (l ++ s ++ r) = Str.strip s.
Proof.
  intros Hl Hr. unfold Str.strip.
  rewrite lstrip_spaces_app, lstrip_app by done.
  destruct (Str.lstrip s) as [|c s'] eqn:Hs.
  - by rewrite lstrip_spaces.
  - by rewrite rstrip_app_spaces.
Qed.

Lemma strip_idemp s : Str.strip (Str.strip s) = Str.strip s.
Proof.
  destruct (strip_spec s) as (l & r & Hs & Hl & Hr & _).
  rewrite Hs at 2. by rewrite strip_spaces.
Qed.
End ParserMore.

(** X3.  When the parse of a file comes to its end, it has made one
    entry of every line that is neither blank nor a comment, in the
    order of the lines; each entry has a file name that ends in
    [.mp3], and the delimiter is neither in the name nor in the
    text. *)
Theorem parse_lines_entries (lines : list str) (es : list entry) :
  Mode.parse_lines lines [] = Ok es →
  length es = length (filter (λ l, is_entry_line l = true) lines)
  ∧ Forall2 (λ l e, Mode.parse_line l = Ok (Some e))
      (filter (λ l, is_entry_line l = true) lines) es
  ∧ Forall (λ e, ∃ name, e.1 = name ++ lit ".mp3"
                         ∧ (bar ∉ name) ∧ (bar ∉ e.2)) es.
Proof.
  intros Hparse.
  assert (Hall : Forall2 (λ l e, Mode.parse_line l = Ok (Some e))
                   (filter (λ l, is_entry_line l = true) lines) es).
  { revert es Hparse. induction lines as [|l lines IH]; intros es.
    - intros [= <-]. constructor.
    - simpl. destruct (Mode.parse_line l) as [[e|]|x] eqn:Hl; [| |done].
      + rewrite parse_lines_acc.
        destruct (Mode.parse_lines lines []) as [es'|] eqn:Hrest; [|done].
        intros [= <-]. apply parse_line_some in Hl as Hkept.
        destruct Hkept as [Hkept _]. rewrite filter_cons_True by done.
        constructor; [done|]. by apply IH.
      + intros Hrest. rewrite filter_cons_False; [by apply IH|].
        intros Hkept. apply is_entry_line_spec in Hkept as [Hne Hhash].
        rewrite parse_line_fields in Hl by done.
        by destruct (Str.split bar (Str.strip l)) as [|? [|? [|? ?]]]. }
  split_and!; [|done|].
  - symmetry. by eapply Forall2_length.
  - clear Hparse. induction Hall as [|l e ls es' Hl _ IH]; constructor; [|done].
    apply parse_line_some in Hl as (_ & name & text & _ & Hname & Htext & ->).
    by exists name.
Qed.

Lemma parse_lines_entries_witness :
  Mode.parse_lines (iter_lines Sim.three_tracks) [] = Ok Sim.three
  ∧ length Sim.three
    = length (filter (λ l, is_entry_line l = true) (iter_lines Sim.three_tracks))
  ∧ Forall2 (λ l e, Mode.parse_line l = Ok (Some e))
      (filter (λ l, is_entry_line l = true) (iter_lines Sim.three_tracks))
      Sim.three
  ∧ Forall (λ e, ∃ name, e.1 = name ++ lit ".mp3"
                         ∧ (bar ∉ name) ∧ (bar ∉ e.2)) Sim.three.
Proof.
  split; [reflexivity|].
  apply (parse_lines_entries (iter_lines Sim.three_tracks) Sim.three).
  reflexivity.
Defined.

(** X4.  White space in front of a line and after it (indentation,
    blanks at the end, a carriage return before the newline) does not
    change what the line parses to; in particular a line and its
    stripped form parse alike. *)
Theorem parse_line_ignores_outer_space (l line r : str) :
  Forall (λ c, Str.isspace c = true) l →
  Forall (λ c, Str.isspace c = true) r →
  Mode.parse_line (l ++ line ++ r) = Mode.parse_line line
  ∧ Mode.parse_line (Str.strip line) = Mode.parse_line line.
Proof.
  intros Hl Hr. unfold Mode.parse_line.
  by rewrite strip_spaces, strip_idemp.
Qed.

Lemma parse_line_ignores_outer_space_witness :
  Mode.parse_line (lit "  " ++ lit "foo| Hello" ++ [13; 10]%N)
  = Mode.parse_line (lit "foo| Hello")
  ∧ Mode.parse_line (Str.strip (lit "foo| Hello"))
    = Mode.parse_line (lit "foo| Hello").
Proof.
  apply (parse_line_ignores_outer_space (lit "  ") (lit "foo| Hello")
           [13; 10]%N).
  - repeat constructor.
  - repeat constructor.
Defined.

(** ** The loop, entry by entry *)

Section LoopMore.
Context {W M : Type} {cls : Mode W M} (env : Env W) (self : M).
Implicit Types (st : state W) (e : entry) (elements : list entry).
Implicit Types (errors n total i : nat) (x : exn).





(** A loop whose counter cannot reach the threshold before the last
    entry comes to its end. *)
Lemma loop_completes total i elements errors st :
  prints_succeed env →
  backend_raises_exceptions self → writes_raise_ioerrors env →
  errors + length elements ≤ 3 →
  ∃ n st', Mode.loop env self total i elements errors st = (Ok n, st')
           ∧ n ≤ errors + length elements.
Proof.
  intros Hout Hsynth Hwrite. revert i errors st.
  induction elements as [|e rest IH]; intros i errors st Hle.
  - exists errors, st. rewrite loop_nil. split; [done|lia].
  - simpl in Hle. rewrite loop_cons.
    destruct (body_completes env self total i e errors st)
      as (m & st1 & Hbody); [done|done|done|lia|].
    rewrite Hbody. apply body_counter in Hbody as [_ Hm].
    destruct (IH (S i) m st1) as (n & st' & -> & Hn); [lia|].
    exists n, st'. split; [done|]. simpl. lia.
Qed.

(** X8.  With a standard output that takes every line, a list of at
    most three entries is always converted to its end, whatever the
    backend and the writing of the files fail on (with instances of
    [Exception] and of [IOError]): the threshold is only looked at in
    front of an entry, and three errors take three entries.  The exit
    status is 0 even if every entry has failed. *)
Theorem small_batch_completes elements st :
  prints_succeed env →
  backend_raises_exceptions self → writes_raise_ioerrors env →
  length elements ≤ 3 →
  ∃ n st',
    Mode.convert env self elements st = (Ok n, st')
    ∧ n ≤ length elements
    ∧ exit_status (Mode.convert env self elements st).1 = 0%Z.
Proof.
  intros Hout Hsynth Hwrite Hlen.
  destruct (loop_completes (length elements) 0 elements 0
              (emit st [Print CreatingTexts]) Hout Hsynth Hwrite)
    as (n & st' & Hloop & Hn); [lia|].
  assert (Hconv : Mode.convert env self elements st = (Ok n, st')).
  { unfold Mode.convert, bind, print, log. simpl. exact Hloop. }
  exists n, st'. rewrite Hconv. split_and!; [done|lia|done].
Qed.


(** With a backend that fails before it does anything, the loop goes
    through at most three entries and leaves the world as it is. *)
Lemma loop_fails_in_place (x : str → exn) total i elements errors st :
  prints_succeed env →
  backend_fails_in_place self x →
  errors ≤ 3 →
  ∃ st',
    Mode.loop env self total i elements errors st
    = (if decide (errors + length elements ≤ 3)
       then Ok (errors + length elements) else Raise exit1, st')
    ∧ world st' = world st
    ∧ writes (trace st') = writes (trace st)
    ∧ synth_calls (trace st')
      = synth_calls (trace st)
        ++ ((λ e, (e.2, _language self)) <$> take (3 - errors) elements).
Proof.
  intros Hout Hfail. revert i errors st.
  induction elements as [|[name text] rest IH]; intros i errors st Hle.
  - exists st. rewrite loop_nil, decide_True by (simpl; lia).
    rewrite Nat.add_0_r, take_nil, !app_nil_r. done.
  - rewrite loop_cons. destruct (decide (errors < 3)) as [Hlt|Hge].
    + rewrite body_attempt by done. simpl.
      destruct (Hfail text
                  (emit st [Print (Progress i total name text);
                            Synthesize text (_language self)]))
        as [-> ->].
      destruct (IH (S i) (errors + 1)
                  (emit (emit st [Print (Progress i total name text);
                                  Synthesize text (_language self)])
                     [Print (ConversionError text (x text))]))
        as (st' & -> & Hworld & Hwrites & Hcalls); [lia|].
      exists st'. split_and!.
      * simpl length.
        destruct (decide (errors + 1 + length rest ≤ 3)),
          (decide (errors + S (length rest) ≤ 3)); try lia; [|done].
        do 2 f_equal. lia.
      * by rewrite Hworld.
      * rewrite Hwrites. simpl. rewrite !writes_app. simpl.
        by rewrite !app_nil_r.
      * rewrite Hcalls. simpl. rewrite !synth_calls_app. simpl.
        rewrite app_nil_r, <-app_assoc. simpl.
        replace (3 - errors) with (S (3 - (errors + 1))) by lia. done.
    + rewrite body_abort by lia.
      exists (emit st [Print TooManyErrors]).
      rewrite decide_False by (simpl; lia).
      replace (3 - errors) with 0 by lia. simpl.
      rewrite synth_calls_app, writes_app. simpl. by rewrite !app_nil_r.
Qed.

Lemma convert_fails_in_place (x : str → exn) elements st :
  prints_succeed env →
  backend_fails_in_place self x →
  (Mode.convert env self elements st).1
  = (if decide (length elements ≤ 3)
     then Ok (length elements) else Raise exit1)
  ∧ world (Mode.convert env self elements st).2 = world st
  ∧ writes (trace (Mode.convert env self elements st).2) = writes (trace st)
  ∧ synth_calls (trace (Mode.convert env self elements st).2)
    = synth_calls (trace st)
      ++ ((λ e, (e.2, _language self)) <$> take 3 elements).
Proof.
  intros Hout Hfail.
  destruct (loop_fails_in_place x (length elements) 0 elements 0
              (emit st [Print CreatingTexts]) Hout Hfail)
    as (st' & Hloop & Hworld & Hwrites & Hcalls); [lia|].
  assert (Hconv : Mode.convert env self elements st
                  = (if decide (length elements ≤ 3)
                     then Ok (length elements) else Raise exit1, st')).
  { unfold Mode.convert, bind, print, log. simpl. exact Hloop. }
  rewrite Hconv. simpl. split_and!; [done|done|..].
  - rewrite Hwrites. simpl. rewrite writes_app. simpl. by rewrite app_nil_r.
  - rewrite Hcalls. simpl. rewrite synth_calls_app. simpl.
    by rewrite app_nil_r.
Qed.
End LoopMore.

(** ** The modes in the loop *)

Lemma aws_prints_only W (self : AWSMode.t) : backend_prints_only (W:=W) self.
Proof.
  intros text st r st'. rewrite aws_text_to_speech. intros [= <- <-].
  exists []. simpl. by rewrite app_nil_r.
Qed.

Lemma aws_fails_in_place W (self : AWSMode.t) :
  backend_fails_in_place (W:=W) self
    (λ _, mk_exn TypeError
            [PStr (lit "'NotImplementedType' object is not callable")]).
Proof. intros text st. by rewrite aws_text_to_speech. Qed.

Lemma say_fails_in_place W (self : SayMode.t) :
  backend_fails_in_place (W:=W) self
    (λ _, mk_exn TypeError
            [PStr (lit "'NotImplementedType' object is not callable")]).
Proof. intros text st. done. Qed.

Lemma base_fails_in_place W (self : Mode.t) :
  backend_fails_in_place (W:=W) self
    (λ _, mk_exn TypeError
            [PStr (lit "'NotImplementedType' object is not callable")]).
Proof. intros text st. done. Qed.

Lemma google_unmapped_fails_in_place W (env : Env W) (self : GoogleMode.t) :
  GoogleMode.voice_by_lang !! Mode.language_ (GoogleMode.base self) = None →
  backend_fails_in_place (cls:=GoogleMode.mode env) self
    (λ _, mk_exn KeyError [PStr (Mode.language_ (GoogleMode.base self))]).
Proof.
  intros Hnone text st. split; [|done]. simpl.
  unfold GoogleMode.text_to_speech, bind, lift. simpl getitem.
  by rewrite Hnone.
Qed.




(** X9.  With a standard output that takes every line and a mode
    whose [text_to_speech] is [raise NotImplemented()] ([AWSMode],
    [SayMode], [Mode] itself) the conversion writes no file and leaves the world as it is; it calls
    for the first three entries at most, and it ends with status 0
    for a list of up to three entries, by [sys.exit(1)] for a longer
    one. *)
Theorem unimplemented_modes_conversion {W} (env : Env W) (aws : AWSMode.t)
    (say : SayMode.t) (base : Mode.t) (elements : list entry) (st : state W) :
  prints_succeed env →
  let outcome : result nat :=
    if decide (length elements ≤ 3) then Ok (length elements)
    else Raise exit1 in
  ((Mode.convert env aws elements st).1 = outcome
   ∧ world (Mode.convert env aws elements st).2 = world st
   ∧ writes (trace (Mode.convert env aws elements st).2) = writes (trace st)
   ∧ synth_calls (trace (Mode.convert env aws elements st).2)
     = synth_calls (trace st)
       ++ ((λ e, (e.2, _language (W:=W) aws)) <$> take 3 elements))
  ∧ ((Mode.convert env say elements st).1 = outcome
     ∧ world (Mode.convert env say elements st).2 = world st
     ∧ writes (trace (Mode.convert env say elements st).2) = writes (trace st)
     ∧ synth_calls (trace (Mode.convert env say elements st).2)
       = synth_calls (trace st)
         ++ ((λ e, (e.2, _language (W:=W) say)) <$> take 3 elements))
  ∧ ((Mode.convert env base elements st).1 = outcome
     ∧ world (Mode.convert env base elements st).2 = world st
     ∧ writes (trace (Mode.convert env base elements st).2) = writes (trace st)
     ∧ synth_calls (trace (Mode.convert env base elements st).2)
       = synth_calls (trace st)
         ++ ((λ e, (e.2, _language (W:=W) base)) <$> take 3 elements))
  ∧ (exit_status outcome = 0%Z ↔ length elements ≤ 3).
Proof.
  intros Hout outcome. unfold outcome. split; [|split; [|split]].
  - eapply convert_fails_in_place; [done|apply aws_fails_in_place].
  - eapply convert_fails_in_place; [done|apply say_fails_in_place].
  - eapply convert_fails_in_place; [done|apply base_fails_in_place].
  - by destruct (decide (length elements ≤ 3)).
Qed.

(** X12.  With a standard output that takes every line, a run of
    [GoogleMode] in a language other than [de] and [en] sends nothing to the server and writes no file: every entry it
    tries fails on the table of voices, the world stays as it is, and
    the conversion ends with status 0 for up to three entries, by
    [sys.exit(1)] for more. *)
Theorem unsupported_language_conversion {W} (env : Env W)
    (self : GoogleMode.t) (elements : list entry) (st : state W) :
  prints_succeed env →
  Mode.language_ (GoogleMode.base self) ≠ lit "de" →
  Mode.language_ (GoogleMode.base self) ≠ lit "en" →
  (Mode.convert (cls:=GoogleMode.mode env) env self elements st).1
  = (if decide (length elements ≤ 3)
     then Ok (length elements) else Raise exit1)
  ∧ world (Mode.convert (cls:=GoogleMode.mode env) env self elements st).2
    = world st
  ∧ writes (trace (Mode.convert (cls:=GoogleMode.mode env) env self
                     elements st).2)
    = writes (trace st)
  ∧ synth_calls (trace (Mode.convert (cls:=GoogleMode.mode env) env self
                          elements st).2)
    = synth_calls (trace st)
      ++ ((λ e, (e.2, Mode.language_ (GoogleMode.base self)))
          <$> take 3 elements).
Proof.
  intros Hout Hde Hen.
  eapply (convert_fails_in_place (cls:=GoogleMode.mode env)); [done|].
  apply google_unmapped_fails_in_place. by apply voice_by_lang_keys.
Qed.

Lemma unsupported_language_conversion_witness :
  let st := Sim.start (Sim.card Sim.four_tracks
                         [Sim.ok_reply; Sim.ok_reply; Sim.ok_reply]) in
  (Mode.convert (cls:=GoogleMode.mode Sim.env) Sim.env Sim.french
     Sim.four st).1 = Raise exit1
  ∧ world (Mode.convert (cls:=GoogleMode.mode Sim.env) Sim.env Sim.french
             Sim.four st).2 = world st
  ∧ writes (trace (Mode.convert (cls:=GoogleMode.mode Sim.env) Sim.env
                     Sim.french Sim.four st).2) = writes (trace st)
  ∧ synth_calls (trace (Mode.convert (cls:=GoogleMode.mode Sim.env) Sim.env
                          Sim.french Sim.four st).2)
    = synth_calls (trace st)
      ++ ((λ e, (e.2, lit "fr")) <$> take 3 Sim.four).
Proof.
  intros st.
  apply (unsupported_language_conversion Sim.env Sim.french Sim.four st);
    [apply sim_prints_succeed|vm_compute; congruence..].
Defined.

Lemma unimplemented_modes_conversion_witness :
  let st := Sim.start (Sim.card Sim.four_tracks []) in
  prints_succeed Sim.env
  ∧ (Mode.convert Sim.env Sim.aws Sim.four st).1 = Raise exit1
  ∧ (Mode.convert Sim.env Sim.say Sim.three st).1 = Ok 3.
Proof.
  intros st. split; [apply sim_prints_succeed|].
  destruct (unimplemented_modes_conversion Sim.env Sim.aws Sim.say
              (Mode.parse_args Sim.args) Sim.four st sim_prints_succeed)
    as ((Haws & _) & _).
  destruct (unimplemented_modes_conversion Sim.env Sim.aws Sim.say
              (Mode.parse_args Sim.args) Sim.three st sim_prints_succeed)
    as (_ & (Hsay & _) & _).
  split; [exact Haws|exact Hsay].
Defined.



Lemma small_batch_completes_witness :
  let st := Sim.start (Sim.card Sim.three_tracks []) in
  ∃ n st',
    Mode.convert Sim.env Sim.aws Sim.three st = (Ok n, st')
    ∧ n ≤ length Sim.three
    ∧ exit_status (Mode.convert Sim.env Sim.aws Sim.three st).1 = 0%Z.
Proof.
  intros st. apply (small_batch_completes Sim.env Sim.aws Sim.three st).
  - apply sim_prints_succeed.
  - apply aws_raises_exceptions.
  - apply sim_writes_raise_ioerrors.
  - simpl. lia.
Defined.


(** ** Before the loop *)

Section RunMore.
Context {W M : Type} {cls : Mode W M} (env : Env W) (self : M).
Implicit Types (st : state W) (lines : list str).

Lemma parse_lines_skipped lines (elements : list entry) :
  Forall (λ l, is_entry_line l = false) lines →
  Mode.parse_lines lines elements = Ok elements.
Proof.
  induction 1 as [|l lines Hl _ IH]; simpl; [done|].
  by rewrite parse_line_skips.
Qed.

(** X2.  A track list without entries, be it empty or made of blank
    lines and comments only, is no error: the run prints its heading
    and ends, with no call of the backend and no file written. *)
Theorem run_without_entries st lines :
  isfile env (_input self) (world st) = true →
  isdir env (_outdir self) (world st) = true →
  read_lines env (_input self) (world st) = (lines, None) →
  Forall (λ l, is_entry_line l = false) lines →
  Mode.run env self st = (Ok tt, emit st [Print CreatingTexts])
  ∧ exit_status (Mode.run env self st).1 = 0%Z.
Proof.
  intros Hfile Hdir Hread Hlines.
  assert (Hrun : Mode.run env self st = (Ok tt, emit st [Print CreatingTexts])).
  { rewrite run_parse_then_convert by done.
    unfold Mode.read_elements, bind, ask, lift. rewrite Hread. simpl.
    by rewrite parse_lines_skipped. }
  by rewrite Hrun.
Qed.

(** X13.  Nothing catches what the reading of the track list raises:
    if the file cannot be opened, or stops being readable after some
    lines, the run ends on this exception in the state it started
    from, and the entries parsed so far are not converted. *)
Theorem read_failure_ends_run st lines x (es : list entry) :
  isfile env (_input self) (world st) = true →
  isdir env (_outdir self) (world st) = true →
  read_lines env (_input self) (world st) = (lines, Some x) →
  Mode.parse_lines lines [] = Ok es →
  Mode.run env self st = (Raise x, st).
Proof.
  intros Hfile Hdir Hread Hparse.
  rewrite run_parse_then_convert by done.
  unfold Mode.read_elements, bind, ask, lift, raise. rewrite Hread. simpl.
  by rewrite Hparse.
Qed.
End RunMore.

Lemma run_without_entries_witness :
  let st := Sim.start (Sim.card (lit "# only a comment" ++ [newline; newline])
                         [Sim.ok_reply]) in
  Mode.run Sim.env Sim.google st = (Ok tt, emit st [Print CreatingTexts])
  ∧ exit_status (Mode.run Sim.env Sim.google st).1 = 0%Z.
Proof.
  intros st.
  apply (run_without_entries Sim.env Sim.google st
           [lit "# only a comment" ++ [newline]; [newline]]).
  - reflexivity.
  - reflexivity.
  - reflexivity.
  - repeat constructor.
Defined.

Lemma read_failure_ends_run_witness :
  let st := Sim.start (Sim.card Sim.three_tracks [Sim.ok_reply]) in
  Mode.run (cls:=GoogleMode.mode Sim.garbled) Sim.garbled Sim.google st
  = (Raise (mk_exn Sim.UnicodeDecodeError []), st).
Proof.
  intros st.
  apply (read_failure_ends_run (cls:=GoogleMode.mode Sim.garbled)
           Sim.garbled Sim.google st [lit "a|x" ++ [newline]]
           (mk_exn Sim.UnicodeDecodeError []) [(lit "a.mp3", lit "x")]);
    reflexivity.
Defined.

(** X1.  Without a subcommand the script prints its line and ends
    with [sys.exit(1)].  When the input is not a file (the first
    check), or when the output directory is missing, it prints one
    line with the path and ends with [sys.exit(1)]; if the standard
    output cannot encode this line, it ends on the exception of the
    [print] instead, nothing printed.  In all these cases the world
    is untouched.  The script comes to its end only if a subcommand
    was given, both checks passed, the whole file was parsed, and the
    loop over the entries came to its end. *)
Theorem main_fatal_conditions {W} (env : Env W) (st : state W) :
  main env None st = (Raise exit1, emit st [Print NoSubcommand])
  ∧ (∀ args,
       isfile env (input args) (world st) = false →
       main env (Some args) st
       = match stdout_error env (InputNotAccessible (input args))
                 (world st) with
         | None =>
             (Raise exit1, emit st [Print (InputNotAccessible (input args))])
         | Some x => (Raise x, st)
         end)
  ∧ (∀ args,
       isfile env (input args) (world st) = true →
       isdir env (outdir args) (world st) = false →
       main env (Some args) st
       = match stdout_error env (OutdirMissing (outdir args)) (world st) with
         | None =>
             (Raise exit1, emit st [Print (OutdirMissing (outdir args))])
         | Some x => (Raise x, st)
         end)
  ∧ (∀ args st',
       main env args st = (Ok tt, st') →
       ∃ a elements n,
         args = Some a
         ∧ isfile env (input a) (world st) = true
         ∧ isdir env (outdir a) (world st) = true
         ∧ Mode.read_elements (cls:=GoogleMode.mode env) env
             (GoogleMode.parse_args a) st = (Ok elements, st)
         ∧ Mode.loop (cls:=GoogleMode.mode env) env (GoogleMode.parse_args a)
             (length elements) 0 elements 0 (emit st [Print CreatingTexts])
           = (Ok n, st')).
Proof.
  split_and!.
  - reflexivity.
  - intros args Hfile. unfold main, GoogleMode.create_and_run.
    destruct (run_check_paths (cls:=GoogleMode.mode env) env
                (GoogleMode.parse_args args) st) as [Hin _].
    rewrite Hin by done. unfold bind, print. simpl.
    by destruct (stdout_error env _ (world st)).
  - intros args Hfile Hdir. unfold main, GoogleMode.create_and_run.
    destruct (run_check_paths (cls:=GoogleMode.mode env) env
                (GoogleMode.parse_args args) st) as [_ Hout].
    rewrite Hout by done. unfold bind, print. simpl.
    by destruct (stdout_error env _ (world st)).
  - intros [a|] st'; [|done]. unfold main, GoogleMode.create_and_run.
    intros Hrun.
    destruct (isfile env (input a) (world st)) eqn:Hfile.
    2:{ destruct (run_check_fails (cls:=GoogleMode.mode env) env
                    (GoogleMode.parse_args a) st) as (x & s' & Hm & _);
          [by left|].
        by rewrite Hm in Hrun. }
    destruct (isdir env (outdir a) (world st)) eqn:Hdir.
    2:{ destruct (run_check_fails (cls:=GoogleMode.mode env) env
                    (GoogleMode.parse_args a) st) as (x & s' & Hm & _);
          [by right|].
        by rewrite Hm in Hrun. }
    rewrite run_parse_then_convert in Hrun by done.
    destruct (read_elements_pure (cls:=GoogleMode.mode env) env
                (GoogleMode.parse_args a) st) as [[elements|x] Hread];
      rewrite Hread in Hrun; [|done].
    unfold Mode.convert, bind, print, log in Hrun. simpl in Hrun.
    destruct (Mode.loop _ _ _ _ _ _ _) as [[n|x] st2] eqn:Hloop; [|done].
    injection Hrun as <-. by exists a, elements, n.
Qed.

Lemma main_fatal_conditions_witness :
  let st := Sim.start (Sim.card Sim.three_tracks [Sim.ok_reply]) in
  let args := {| input := lit "missing.txt"; outdir := lit "sd-card";
                 lang := lit "de"; google_key := lit "KEY" |} in
  let umlaut := {| input := [252%N] ++ lit ".txt"; outdir := lit "sd-card";
                   lang := lit "de"; google_key := lit "KEY" |} in
  main Sim.ascii_out (Some args) st
  = (Raise exit1, emit st [Print (InputNotAccessible (lit "missing.txt"))])
  ∧ main Sim.ascii_out (Some umlaut) st
    = (Raise (mk_exn Sim.UnicodeEncodeError
                [PStr (lit "'ascii' codec can't encode character")]), st).
Proof.
  intros st args umlaut.
  destruct (main_fatal_conditions Sim.ascii_out st) as (_ & Hinput & _).
  split.
  - rewrite (Hinput args); reflexivity.
  - rewrite (Hinput umlaut); reflexivity.
Defined.

(** ** The answer of the server *)

(** X10.  [GoogleMode.text_to_speech] gives bytes in one case only:
    the language is in the table, the request has been answered, the
    status is [requests.codes.ok], the body is a JSON object with the
    field [audioContent], and [b64decode] has made these bytes of the
    field.  One request has then been sent, and nothing printed. *)
Theorem google_audio_only_from_ok_response {W} (env : Env W)
    (self : GoogleMode.t) (text lang : str) (st st' : state W) (b : bytes) :
  GoogleMode.text_to_speech env self text lang st = (Ok b, st') →
  ∃ voice r w d content,
    GoogleMode.voice_by_lang !! lang = Some voice
    ∧ post env (GoogleMode.post_args self text voice) (world st) = (Ok r, w)
    ∧ status_code r = GoogleMode.codes_ok
    ∧ json r = Ok (PDict d)
    ∧ d !! lit "audioContent" = Some content
    ∧ b64decode env content = Ok b
    ∧ st' = mk_state w (trace st).
Proof.
  unfold GoogleMode.text_to_speech, bind, lift, on_world, raise.
  simpl getitem.
  destruct (GoogleMode.voice_by_lang !! lang) as [voice|] eqn:Hvoice; [|done].
  destruct (post env _ _) as [[r|x] w] eqn:Hpost; [|done].
  destruct (Z.eqb_spec (status_code r) GoogleMode.codes_ok) as [Hstatus|_].
  2:{ simpl. destruct (print env _ _) as [[[]|?] ?]; [|done].
      destruct (print env _ _) as [[[]|?] ?]; [|done].
      by destruct (print env _ _) as [[[]|?] ?]. }
  simpl.
  destruct (json r) as [js|x] eqn:Hjson; [|done].
  destruct js as [| | | | |l|d]; simpl; try done.
  - by destruct (Str.contains _ _).
  - by destruct (existsb _ _).
  - destruct (d !! lit "audioContent") as [content|] eqn:Hfield.
    + rewrite bool_decide_eq_true_2 by eauto. simpl.
      destruct (b64decode env content) as [b'|x] eqn:Hdec; [|done].
      intros [= <- <-]. by exists voice, r, w, d, content.
    + rewrite bool_decide_eq_false_2 by (by intros [? ?]). done.
Qed.

Lemma google_audio_only_from_ok_response_witness :
  let st := Sim.start (Sim.card Sim.three_tracks [Sim.ok_reply]) in
  ∃ voice r w d content,
    GoogleMode.voice_by_lang !! lit "de" = Some voice
    ∧ post Sim.env (GoogleMode.post_args Sim.google (lit "x") voice) (world st)
      = (Ok r, w)
    ∧ status_code r = GoogleMode.codes_ok
    ∧ json r = Ok (PDict d)
    ∧ d !! lit "audioContent" = Some content
    ∧ b64decode Sim.env content = Ok [Byte.x48; Byte.x69]
    ∧ mk_state (Sim.card Sim.three_tracks []) [] = mk_state w (trace st).
Proof.
  intros st.
  apply (google_audio_only_from_ok_response Sim.env Sim.google (lit "x")
           (lit "de") st (mk_state (Sim.card Sim.three_tracks []) [])
           [Byte.x48; Byte.x69]).
  reflexivity.
Defined.

(** X11.  On a standard output that prints every line: if
    [requests] and [base64] fail with instances of [Exception] only,
    so does [GoogleMode.text_to_speech], whatever the text, the
    language and the answer of the server; if moreover the writing of
    files fails with [IOError] only, the loop of a [GoogleMode] run
    ends in one of two ways: at its end, or by the [sys.exit(1)] of
    the threshold. *)
Theorem google_failures_are_exceptions {W} (env : Env W) (self : GoogleMode.t) :
  prints_succeed env →
  library_raises_exceptions env →
  @backend_raises_exceptions W _ (GoogleMode.mode env) self
  ∧ (writes_raise_ioerrors env →
     ∀ total i (elements : list entry) errors (st : state W),
       (∃ n st', Mode.loop (cls:=GoogleMode.mode env) env self total i
                   elements errors st = (Ok n, st'))
       ∨ (∃ st', Mode.loop (cls:=GoogleMode.mode env) env self total i
                   elements errors st = (Raise exit1, st'))).
Proof.
  intros Hout (Hpost & Hjson & Hdec).
  assert (Hback : @backend_raises_exceptions W _ (GoogleMode.mode env) self).
  { intros text lang st x st'. simpl.
    unfold GoogleMode.text_to_speech, bind, lift, on_world, raise.
    simpl getitem.
    destruct (GoogleMode.voice_by_lang !! lang) as [voice|];
      [|by intros [= <- _]].
    destruct (post env _ _) as [[r|x0] w] eqn:Hp;
      [|intros [= <- _]; by eapply Hpost].
    destruct (status_code r =? GoogleMode.codes_ok)%Z; simpl.
    2:{ rewrite !print_accepted by apply Hout. by intros [= <- _]. }
    destruct (json r) as [js|x0] eqn:Hj;
      [|intros [= <- _]; by eapply Hjson].
    destruct js as [| | | | |l|d]; simpl; try (by intros [= <- _]).
    - destruct (Str.contains _ _); simpl; by intros [= <- _].
    - destruct (existsb _ _); simpl; by intros [= <- _].
    - destruct (d !! lit "audioContent") as [content|] eqn:Hfield.
      + rewrite bool_decide_eq_true_2 by eauto. simpl.
        destruct (b64decode env content) as [b'|x0] eqn:Hb; [done|].
        intros [= <- _]. by eapply Hdec.
      + rewrite bool_decide_eq_false_2 by (by intros [? ?]).
        simpl. by intros [= <- _]. }
  split; [done|]. intros Hwrite total i elements errors st.
  by apply loop_ends.
Qed.

Lemma steady_library_raises_exceptions : library_raises_exceptions Sim.steady.
Proof.
  split_and!.
  - intros req w x w'. done.
  - intros req w r w' x. simpl. unfold Sim.post_ok, Sim.ok_reply.
    intros [= <- _]. done.
  - intros v x. simpl. unfold Sim.b64decode.
    destruct v as [| | | |s| |]; try (by intros [= <-]).
    destruct (Sim.quads s); [done|]. by intros [= <-].
Qed.

Lemma google_failures_are_exceptions_witness :
  @backend_raises_exceptions _ _ Sim.steady_google Sim.google
  ∧ (writes_raise_ioerrors Sim.steady →
     ∀ total i (elements : list entry) errors (st : state Sim.world),
       (∃ n st', Mode.loop (cls:=Sim.steady_google) Sim.steady Sim.google
                   total i elements errors st = (Ok n, st'))
       ∨ (∃ st', Mode.loop (cls:=Sim.steady_google) Sim.steady Sim.google
                   total i elements errors st = (Raise exit1, st'))).
Proof.
  apply (google_failures_are_exceptions Sim.steady Sim.google).
  - done.
  - apply steady_library_raises_exceptions.
Defined.

(** ** A standard output that cannot print a line *)

(** X14.  Below three errors, an entry whose progress line the
    standard output cannot print is given up inside the [try]: the
    backend is not called and nothing is written.  If the exception
    of the [print] is an instance of [Exception], the handler prints
    its line and the entry counts as one error; if this line cannot
    be printed either, the loop ends on the exception of the second
    [print].  An exception of the first [print] that is no instance
    of [Exception] ends the loop at once. *)
Theorem unprintable_progress_line {W M} {cls : Mode W M} (env : Env W)
    (self : M) (total i : nat) (name text : str) (rest : list entry)
    (errors : nat) (st : state W) (y : exn) :
  errors < 3 →
  stdout_error env (Progress i total name text) (world st) = Some y →
  (isinstance y Exception = true →
   Mode.loop env self total i ((name, text) :: rest) errors st
   = match stdout_error env (ConversionError text y) (world st) with
     | None =>
         Mode.loop env self total (S i) rest (errors + 1)
           (emit st [Print (ConversionError text y)])
     | Some z => (Raise z, st)
     end)
  ∧ (isinstance y Exception = false →
     Mode.loop env self total i ((name, text) :: rest) errors st
     = (Raise y, st)).
Proof.
  intros Herrors Hline.
  assert (Hbody := body_paths env self total i name text errors st Herrors).
  rewrite (print_refused env _ st y) in Hbody by done.
  cbv zeta in Hbody.
  split; intros Hy; rewrite Hy in Hbody; simpl; unfold bind at 1;
    rewrite Hbody; [|done].
  unfold bind, print, ret. simpl.
  by destruct (stdout_error env (ConversionError text y) (world st)).
Qed.

Lemma unprintable_progress_line_witness :
  let st := Sim.start (Sim.card (lit "a|x") [Sim.ok_reply]) in
  let refused := mk_exn Sim.UnicodeEncodeError
                   [PStr (lit "'ascii' codec can't encode character")] in
  let name := [252%N] ++ lit ".mp3" in
  Mode.loop (cls:=Sim.ascii_out_google) Sim.ascii_out Sim.google 2 0
    [(name, lit "x"); (lit "b.mp3", lit "y")] 0 st
  = Mode.loop (cls:=Sim.ascii_out_google) Sim.ascii_out Sim.google 2 1
      [(lit "b.mp3", lit "y")] 1
      (emit st [Print (ConversionError (lit "x") refused)]).
Proof.
  intros st refused name.
  destruct (unprintable_progress_line (cls:=Sim.ascii_out_google)
              Sim.ascii_out Sim.google 2 0 name (lit "x")
              [(lit "b.mp3", lit "y")] 0 st refused) as [Hcaught _];
    [lia|reflexivity|].
  rewrite Hcaught; reflexivity.
Defined.

(** A run for French over the one entry [a|ü], the standard output in
    ASCII: neither the progress line nor the line of the handler can
    be printed, the run ends on the [UnicodeEncodeError] with exit
    status 1, and the backend has not been called. *)
Example unprintable_text_ends_run :
  let st := Sim.start (Sim.card (lit "a|" ++ [252%N]) [Sim.ok_reply]) in
  let args := {| input := lit "audio_tracks.de.txt"; outdir := lit "sd-card";
                 lang := lit "fr"; google_key := lit "KEY" |} in
  main Sim.ascii_out (Some args) st
  = (Raise (mk_exn Sim.UnicodeEncodeError
              [PStr (lit "'ascii' codec can't encode character")]),
     emit st [Print CreatingTexts])
  ∧ exit_status (main Sim.ascii_out (Some args) st).1 = 1%Z
  ∧ synth_calls (trace (main Sim.ascii_out (Some args) st).2) = []
  ∧ Sim.replies (world (main Sim.ascii_out (Some args) st).2)
    = [Sim.ok_reply].
Proof. vm_compute. split_and!; congruence. Qed.

(** A run of [GoogleMode] whose language is [ü], the standard output
    in ASCII: the progress line of the first entry goes out, the
    table of voices raises [KeyError('ü')], and the handler cannot
    print it.  The error is not counted, the second entry is not
    tried, and the run ends on the [UnicodeEncodeError]. *)
Example unprintable_error_line_ends_run :
  let st := Sim.start (Sim.card Sim.three_tracks [Sim.ok_reply]) in
  let self := GoogleMode.parse_args
                {| input := lit "audio_tracks.de.txt";
                   outdir := lit "sd-card";
                   lang := [252%N]; google_key := lit "KEY" |} in
  Mode.loop (cls:=Sim.ascii_out_google) Sim.ascii_out self 3 0 Sim.three 0 st
  = (Raise (mk_exn Sim.UnicodeEncodeError
              [PStr (lit "'ascii' codec can't encode character")]),
     emit st [Print (Progress 0 3 (lit "a.mp3") (lit "x"));
              Synthesize (lit "x") [252%N]]).
Proof. reflexivity. Qed.
